(** * FLAC metadata blocks: a shallow embedding of package [meta]

    The development follows [meta/meta.go]: the block-type taxonomy, the
    header decoder [ParseBlockHeader], and the block lifecycle ([NewBlock],
    [ParseBlock], [Block.Parse], [Block.Skip]).  Readers are modelled by explicit state
    passing: every operation returns the reader it leaves behind. *)

From Stdlib Require Import ZArith String Strings.Byte DecimalString Lia.
From stdpp Require Import base gmap list.

Local Open Scope Z_scope.

(** ** Errors *)

(** The error values that flow through the package.  [ErrInvalidBlockType]
    and [ErrUnsupportedType] are the two errors the package creates itself;
    the others come from the readers or from the body decoders. *)
Inductive error : Type :=
| EOF                          (* io.EOF *)
| ErrUnexpectedEOF             (* io.ErrUnexpectedEOF *)
| ErrNegativePosition          (* Seek to an offset before the start *)
| ErrDevice (msg : string)     (* a fault of the underlying device *)
| ErrInvalidBlockType          (* errors.New in ParseBlockHeader *)
| ErrUnsupportedType (t : Z)   (* fmt.Errorf in Block.Parse *)
| ErrBody (msg : string).      (* raised by a body decoder *)

Inductive result (A : Type) : Type :=
| Ok (a : A)
| Err (e : error).
Arguments Ok {A} a.
Arguments Err {A} e.

(** The kinds of failure the package distinguishes. *)
Definition is_io_error (e : error) : bool :=
  match e with
  | EOF | ErrUnexpectedEOF | ErrNegativePosition | ErrDevice _ => true
  | _ => false
  end.

Definition is_format_error (e : error) : bool :=
  match e with
  | ErrInvalidBlockType => true
  | _ => false
  end.

(** [%d] of the formatting verbs. *)
Definition fmt_d (z : Z) : string := NilZero.string_of_int (Z.to_int z).

(** The text of the errors created in this package. *)
Definition Error (e : error) : string :=
  match e with
  | EOF => "EOF"
  | ErrUnexpectedEOF => "unexpected EOF"
  | ErrNegativePosition => "negative position"
  | ErrDevice msg => msg
  | ErrInvalidBlockType => "meta.ParseBlockHeader: invalid block type"
  | ErrUnsupportedType t =>
      "meta.Block.ParseBlock: block type '" ++ fmt_d t ++ "' not yet supported"
  | ErrBody msg => msg
  end%string.

(** ** Machine integers *)

Definition uint8 (z : Z) : Z := z mod 2 ^ 8.

(** Conversion of a [uint64] to [int] (64 bits, two's complement). *)
Definition int (z : Z) : Z :=
  let w := z mod 2 ^ 64 in
  if w <? 2 ^ 63 then w else w - 2 ^ 64.

Definition int64 (z : Z) : Z := int z.

Definition byte_val (b : byte) : Z := Z.of_N (Byte.to_N b).

(** ** Readers *)

(** Whether the dynamic type of a reader implements [io.Seeker], and if it
    does, whether its [Seek] faults. *)
Inductive Seeking : Type :=
| NotSeeker
| Seeker (fault : option error).

(** An [io.Reader] over a finite backing store, with the behaviour of a file:
    [data] is what the store holds, [pos] is the cursor (the absolute offset
    of the next byte), [endErr] is what a read reports once no byte is left
    ([EOF] for a healthy store, a device error for a faulty one). *)
Record Reader : Type := mkReader {
  data : list byte;
  pos : nat;
  endErr : error;
  seeking : Seeking
}.

Definition set_pos (rd : Reader) (p : nat) : Reader :=
  {| data := data rd; pos := p; endErr := endErr rd; seeking := seeking rd |}.

(** [Read rd n] is [rd.Read(p)] with [len(p) = n]: it hands back the bytes
    stored into [p], the error, and the reader afterwards. *)
Definition Read (rd : Reader) (n : nat) : list byte * option error * Reader :=
  match n with
  | O => ([], None, rd)
  | S _ =>
      match take n (drop (pos rd) (data rd)) with
      | [] => ([], Some (endErr rd), rd)
      | bs => (bs, None, set_pos rd (pos rd + length bs))
      end
  end.

Inductive Whence : Type := SEEK_SET | SEEK_CUR | SEEK_END.

(** [Seek] of a file: positions past the end are legal, positions before the
    start are an error.  Returns the new offset, the error, and the reader. *)
Definition Seek (rd : Reader) (offset : Z) (whence : Whence)
  : Z * option error * Reader :=
  match seeking rd with
  | Seeker (Some e) => (0, Some e, rd)
  | _ =>
      let base :=
        match whence with
        | SEEK_SET => 0
        | SEEK_CUR => Z.of_nat (pos rd)
        | SEEK_END => Z.of_nat (length (data rd))
        end in
      let target := base + offset in
      if target <? 0 then (0, Some ErrNegativePosition, rd)
      else (target, None, set_pos rd (Z.to_nat target))
  end.

(** [io.LimitedReader]: reads from [R] but stops with [EOF] after [N] bytes. *)
Record LimitedReader : Type := mkLimited {
  R : Reader;
  N : Z
}.

Definition LimitReader (rd : Reader) (n : Z) : LimitedReader :=
  {| R := rd; N := n |}.

Definition LimitedReader_Read (l : LimitedReader) (n : nat)
  : list byte * option error * LimitedReader :=
  if N l <=? 0 then ([], Some EOF, l)
  else
    let n' := if N l <? Z.of_nat n then Z.to_nat (N l) else n in
    let '(bs, err, rd') := Read (R l) n' in
    (bs, err, {| R := rd'; N := N l - Z.of_nat (length bs) |}).

(** ** The bit-field extractor *)

(** Modelled from the spec: package [bit] ([bit.NewReader], [ReadFields]) is
    an external collaborator.  It reads a byte stream and yields one unsigned
    integer per requested width, decoded MSB-first, fields allowed to span
    byte boundaries; it fails with the reader's error if the stream ends
    before all requested bits are available.  Bytes are fetched one at a time,
    when the first bit of the next byte is needed. *)
Record BitReader : Type := mkBitReader {
  br_r : Reader;
  br_buf : Z;      (* the byte being consumed *)
  br_n : nat       (* number of its bits not yet handed out *)
}.

Definition NewReader (rd : Reader) : BitReader :=
  {| br_r := rd; br_buf := 0; br_n := 0 |}.

(** Makes sure a bit is buffered, fetching the next byte if need be. *)
Definition fill (br : BitReader) : option error * BitReader :=
  match br_n br with
  | S _ => (None, br)
  | O =>
      match Read (br_r br) 1 with
      | (b :: _, _, rd') =>
          (None, {| br_r := rd'; br_buf := byte_val b; br_n := 8 |})
      | ([], Some e, rd') =>
          (Some e, {| br_r := rd'; br_buf := br_buf br; br_n := 0 |})
      | ([], None, rd') =>
          (Some ErrUnexpectedEOF, {| br_r := rd'; br_buf := br_buf br; br_n := 0 |})
      end
  end.

(** Reads [n] more bits onto the value [vl], most significant first. *)
Fixpoint ReadBits (n : nat) (vl : Z) (br : BitReader) : result Z * BitReader :=
  match n with
  | O => (Ok vl, br)
  | S n' =>
      match fill br with
      | (Some e, br') => (Err e, br')
      | (None, br') =>
          let k := Nat.pred (br_n br') in
          let bit := Z.b2z (Z.testbit (br_buf br') (Z.of_nat k)) in
          ReadBits n' (Z.lor (Z.shiftl vl 1) bit)
            {| br_r := br_r br'; br_buf := br_buf br'; br_n := k |}
      end
  end.

Fixpoint ReadFields (ns : list nat) (br : BitReader)
  : result (list Z) * BitReader :=
  match ns with
  | [] => (Ok [], br)
  | n :: ns' =>
      match ReadBits n 0 br with
      | (Err e, br') => (Err e, br')
      | (Ok f, br') =>
          match ReadFields ns' br' with
          | (Err e, br'') => (Err e, br'')
          | (Ok fs, br'') => (Ok (f :: fs), br'')
          end
      end
  end.

(** ** Block types *)

(** [type BlockType uint8]. *)
Definition BlockType : Type := Z.

(** The [iota] constants: [1 << iota] for [iota] = 0 .. 7. *)
Definition TypeStreamInfo : BlockType := Z.shiftl 1 0.
Definition TypePadding : BlockType := Z.shiftl 1 1.
Definition TypeApplication : BlockType := Z.shiftl 1 2.
Definition TypeSeekTable : BlockType := Z.shiftl 1 3.
Definition TypeVorbisComment : BlockType := Z.shiftl 1 4.
Definition TypeCueSheet : BlockType := Z.shiftl 1 5.
Definition TypePicture : BlockType := Z.shiftl 1 6.
Definition TypeReserved : BlockType := Z.shiftl 1 7.

(** A bitmask of all block types, except padding. *)
Definition TypeAll : BlockType :=
  Z.lor (Z.lor (Z.lor (Z.lor (Z.lor (Z.lor
    TypeStreamInfo TypeApplication) TypeSeekTable) TypeVorbisComment)
    TypeCueSheet) TypePicture) TypeReserved.

(** A bitmask of all block types, including padding but excluding reserved. *)
Definition TypeAllStrict : BlockType :=
  Z.lor (Z.lor (Z.lor (Z.lor (Z.lor (Z.lor
    TypeStreamInfo TypePadding) TypeApplication) TypeSeekTable)
    TypeVorbisComment) TypeCueSheet) TypePicture.

(** The eight declared block types, in declaration order. *)
Definition declaredTypes : list BlockType :=
  [TypeStreamInfo; TypePadding; TypeApplication; TypeSeekTable;
   TypeVorbisComment; TypeCueSheet; TypePicture; TypeReserved].

(** A map from BlockType to name. *)
Definition blockTypeName : gmap Z string :=
  <[TypeStreamInfo := "stream info"%string]>
  (<[TypePadding := "padding"%string]>
  (<[TypeApplication := "application"%string]>
  (<[TypeSeekTable := "seek table"%string]>
  (<[TypeVorbisComment := "vorbis comment"%string]>
  (<[TypeCueSheet := "cue sheet"%string]>
  (<[TypePicture := "picture"%string]> ∅)))))).

(** [func (t BlockType) String() string]. *)
Definition BlockType_String (t : BlockType) : string :=
  match blockTypeName !! t with
  | Some s => s
  | None => ("unknown block type " ++ fmt_d (uint8 t))%string
  end.

(** ** Block headers *)

Record BlockHeader : Type := mkBlockHeader {
  IsLast : bool;
  BlockType_ : BlockType;
  Length : Z
}.

(** The message handed to [log.Printf] for a reserved type code. *)
Definition reservedNotice (blockType : Z) : string :=
  ("meta.ParseBlockHeader: reserved block type " ++ fmt_d (uint8 blockType)
   ++ "." ++ String (Ascii.ascii_of_nat 10) EmptyString)%string.

(** [ParseBlockHeader] returns the header or the error, the reader as it
    leaves it, and the messages it logged. *)
Definition ParseBlockHeader (rd : Reader)
  : result BlockHeader * Reader * list string :=
  let br := NewReader rd in
  match ReadFields [1%nat; 7%nat; 24%nat] br with
  | (Err e, br') => (Err e, br_r br', [])
  | (Ok fields, br') =>
      let isLast := negb (nth 0 fields 0 =? 0) in
      let blockType := nth 1 fields 0 in
      let length := int (nth 2 fields 0) in
      let header t := Ok {| IsLast := isLast; BlockType_ := t; Length := length |} in
      if blockType =? 0 then (header TypeStreamInfo, br_r br', [])
      else if blockType =? 1 then (header TypePadding, br_r br', [])
      else if blockType =? 2 then (header TypeApplication, br_r br', [])
      else if blockType =? 3 then (header TypeSeekTable, br_r br', [])
      else if blockType =? 4 then (header TypeVorbisComment, br_r br', [])
      else if blockType =? 5 then (header TypeCueSheet, br_r br', [])
      else if blockType =? 6 then (header TypePicture, br_r br', [])
      else if (7 <=? blockType) && (blockType <=? 126) then
        (header TypeReserved, br_r br', [reservedNotice blockType])
      else (Err ErrInvalidBlockType, br_r br', [])
  end.

(** The byte with value [z mod 256]. *)
Definition byte_of_Z (z : Z) : byte :=
  match Byte.of_N (Z.to_N (z mod 256)) with
  | Some b => b
  | None => x00
  end.

(** Modelled from the spec: the layout of section 6, used to build inputs.
    Four bytes, MSB first: bit 0 is [is_last], bits 1-7 the type code, bits
    8-31 the length. *)
Definition encodeHeader (isLast : bool) (code len : Z) : list byte :=
  let w := Z.lor (Z.lor (Z.shiftl (Z.b2z isLast) 31) (Z.shiftl code 24)) len in
  [byte_of_Z (Z.shiftr w 24); byte_of_Z (Z.shiftr w 16);
   byte_of_Z (Z.shiftr w 8); byte_of_Z w].

(** ** Body decoders *)

(** What a body decoder can do with the [io.Reader] it is given: return, or
    call [Read] with a buffer of [n] bytes and go on with what the call
    yields.  A decoder uses its reader through [Read] only. *)
Inductive Prog (A : Type) : Type :=
| Return (a : A)
| ReadThen (n : nat) (k : list byte -> option error -> Prog A).
Arguments Return {A} a.
Arguments ReadThen {A} n k.

(** Runs a decoder against a limited reader. *)
Fixpoint exec {A : Type} (p : Prog A) (l : LimitedReader) : A * LimitedReader :=
  match p with
  | Return a => (a, l)
  | ReadThen n k =>
      let '(bs, err, l') := LimitedReader_Read l n in
      exec (k bs err) l'
  end.

(** Modelled from the spec: the body decoders ([ParseStreamInfo],
    [VerifyPadding], [ParseApplication], [ParseSeekTable],
    [ParseVorbisComment], [ParseCueSheet], [ParsePicture]) live in other files
    of the package.  Each is given a byte source and returns a typed body
    value or an error; nothing more is assumed of them. *)
Record BodyDecoders : Type := mkBodyDecoders {
  StreamInfo : Type;
  Application : Type;
  SeekTable : Type;
  VorbisComment : Type;
  CueSheet : Type;
  Picture : Type;
  ParseStreamInfo : Prog (StreamInfo * option error);
  VerifyPadding : Prog (option error);
  ParseApplication : Prog (Application * option error);
  ParseSeekTable : Prog (SeekTable * option error);
  ParseVorbisComment : Prog (VorbisComment * option error);
  ParseCueSheet : Prog (CueSheet * option error);
  ParsePicture : Prog (Picture * option error)
}.

(** [bytes.MinRead], and the buffer of [io.Copy]. *)
Definition MinRead : nat := 512.
Definition copyBufSize : nat := Z.to_nat (32 * 1024).

(** [io.Copy] into [ioutil.Discard]: reads until [EOF] or an error and counts
    the bytes.  [fuel] bounds the number of [Read] calls. *)
Fixpoint Copy (fuel : nat) (src : LimitedReader) (written : Z)
  : option (Z * option error * LimitedReader) :=
  match fuel with
  | O => None
  | S fuel' =>
      let '(bs, er, src') := LimitedReader_Read src copyBufSize in
      let written' := written + Z.of_nat (length bs) in
      match er with
      | Some EOF => Some (written', None, src')
      | Some e => Some (written', Some e, src')
      | None => Copy fuel' src' written'
      end
  end.

(** [io.CopyN(ioutil.Discard, src, n)]. *)
Definition CopyN (fuel : nat) (src : Reader) (n : Z)
  : option (Z * option error * Reader) :=
  match Copy fuel (LimitReader src n) 0 with
  | None => None
  | Some (written, err, l') =>
      if written =? n then Some (n, None, R l')
      else
        match err with
        | None => if written <? n then Some (written, Some EOF, R l')
                  else Some (written, None, R l')
        | Some e => Some (written, Some e, R l')
        end
  end.

Section Lifecycle.

Context (D : BodyDecoders).

(** The free room, beyond [MinRead], that the buffer of [ioutil.ReadAll]
    offers to a [Read] when it already holds [k] bytes. *)
Variable room : nat -> nat.

(** [ioutil.ReadAll]: reads until [EOF] or an error, keeping the bytes. *)
Fixpoint ReadAll (fuel : nat) (l : LimitedReader) (buf : list byte)
  : option (list byte * option error * LimitedReader) :=
  match fuel with
  | O => None
  | S fuel' =>
      let '(bs, e, l') := LimitedReader_Read l (MinRead + room (length buf)) in
      let buf' := buf ++ bs in
      match e with
      | Some EOF => Some (buf', None, l')
      | Some e' => Some (buf', Some e', l')
      | None => ReadAll fuel' l' buf'
      end
  end.

(** The body of a block: [nil], one of the typed bodies, or raw bytes. *)
Inductive BodyValue : Type :=
| NoBody
| StreamInfoBody (x : StreamInfo D)
| ApplicationBody (x : Application D)
| SeekTableBody (x : SeekTable D)
| VorbisCommentBody (x : VorbisComment D)
| CueSheetBody (x : CueSheet D)
| PictureBody (x : Picture D)
| RawBody (bs : list byte).

Record Block : Type := mkBlock {
  r : Reader;
  Header : BlockHeader;
  Body : BodyValue
}.

Definition NewBlock (rd : Reader) : result Block * Reader * list string :=
  match ParseBlockHeader rd with
  | (Err e, rd', lg) => (Err e, rd', lg)
  | (Ok h, rd', lg) => (Ok {| r := rd'; Header := h; Body := NoBody |}, rd', lg)
  end.

(** The cases of the [switch] in [Block.Parse]. *)
Inductive Branch : Type :=
| CaseStreamInfo | CasePadding | CaseApplication | CaseSeekTable
| CaseVorbisComment | CaseCueSheet | CasePicture | CaseReserved
| CaseDefault.

Definition dispatch (t : BlockType) : Branch :=
  if t =? TypeStreamInfo then CaseStreamInfo
  else if t =? TypePadding then CasePadding
  else if t =? TypeApplication then CaseApplication
  else if t =? TypeSeekTable then CaseSeekTable
  else if t =? TypeVorbisComment then CaseVorbisComment
  else if t =? TypeCueSheet then CaseCueSheet
  else if t =? TypePicture then CasePicture
  else if t =? TypeReserved then CaseReserved
  else CaseDefault.

(** Runs a typed body decoder and stores what it returns. *)
Definition parseWith {A : Type} (p : Prog (A * option error))
    (wrap : A -> BodyValue) (block : Block) (lr : LimitedReader)
  : option error * Block :=
  let '((x, err), lr') := exec p lr in
  (err, {| r := R lr'; Header := Header block; Body := wrap x |}).

(** [Block.Parse]: the error it returns and the block afterwards; [None] when
    [fuel] does not cover the [Read] calls of [ioutil.ReadAll]. *)
Definition Parse (fuel : nat) (block : Block) : option (option error * Block) :=
  let lr := LimitReader (r block) (int64 (Length (Header block))) in
  match dispatch (BlockType_ (Header block)) with
  | CaseStreamInfo => Some (parseWith (ParseStreamInfo D) StreamInfoBody block lr)
  | CasePadding =>
      let '(err, lr') := exec (VerifyPadding D) lr in
      Some (err, {| r := R lr'; Header := Header block; Body := Body block |})
  | CaseApplication => Some (parseWith (ParseApplication D) ApplicationBody block lr)
  | CaseSeekTable => Some (parseWith (ParseSeekTable D) SeekTableBody block lr)
  | CaseVorbisComment => Some (parseWith (ParseVorbisComment D) VorbisCommentBody block lr)
  | CaseCueSheet => Some (parseWith (ParseCueSheet D) CueSheetBody block lr)
  | CasePicture => Some (parseWith (ParsePicture D) PictureBody block lr)
  | CaseReserved =>
      match ReadAll fuel lr [] with
      | None => None
      | Some (bs, err, lr') =>
          Some (err, {| r := R lr'; Header := Header block; Body := RawBody bs |})
      end
  | CaseDefault =>
      Some (Some (ErrUnsupportedType (BlockType_ (Header block))), block)
  end.

(** [Block.Skip]: the error it returns and the block afterwards; [None] when
    [fuel] does not cover the [Read] calls of [io.CopyN]. *)
Definition Skip (fuel : nat) (block : Block) : option (option error * Block) :=
  match seeking (r block) with
  | Seeker _ =>
      let '(_, err, rd') := Seek (r block) (int64 (Length (Header block))) SEEK_CUR in
      Some (err, {| r := rd'; Header := Header block; Body := Body block |})
  | NotSeeker =>
      match CopyN fuel (r block) (int64 (Length (Header block))) with
      | None => None
      | Some (_, err, rd') =>
          Some (err, {| r := rd'; Header := Header block; Body := Body block |})
      end
  end.

(** [ParseBlock]: the block or the error, the reader as it is left, and the
    messages logged; [None] when [fuel] does not cover [Block.Parse]. *)
Definition ParseBlock (fuel : nat) (rd : Reader)
  : option (result Block * Reader * list string) :=
  match NewBlock rd with
  | (Err e, rd', lg) => Some (Err e, rd', lg)
  | (Ok block, rd', lg) =>
      match Parse fuel block with
      | None => None
      | Some (Some e, block') => Some (Err e, r block', lg)
      | Some (None, block') => Some (Ok block', r block', lg)
      end
  end.

End Lifecycle.

Arguments NoBody {D}.
Arguments RawBody {D} bs.
Arguments mkBlock {D} r Header Body.
Arguments r {D} b.
Arguments Header {D} b.
Arguments Body {D} b.


(** ** Auxiliary notions used in the statements *)

(** Modelled from the spec: the table of section 4.2 for the type codes 0 to
    6 (any other code is mapped to [TypeReserved] here, and is never looked up
    where the table is used). *)
Definition typeOfCode (code : Z) : BlockType :=
  nth (Z.to_nat code)
    [TypeStreamInfo; TypePadding; TypeApplication; TypeSeekTable;
     TypeVorbisComment; TypeCueSheet; TypePicture] TypeReserved.

(** The bytes left between the cursor and the end of the store. *)
Definition avail (rd : Reader) : nat := (length (data rd) - pos rd)%nat.


(** The bound of a limited reader: where its cursor stands plus what it may
    still read.  No [Read] moves it. *)
Definition bound (l : LimitedReader) : nat :=
  (pos (R l) + Z.to_nat (N l))%nat.


(** Two limited readers that stand at the same place with the same allowance
    over stores that agree up to the bound. *)
Definition same_window (l1 l2 : LimitedReader) : Prop :=
  N l1 = N l2 /\ pos (R l1) = pos (R l2) /\ endErr (R l1) = endErr (R l2)
  /\ take (bound l1) (data (R l1)) = take (bound l1) (data (R l2)).


(** [advanced l l']: [l'] is [l] after some reads: the same store, the same
    bound, the cursor not before where it was. *)
Definition advanced (l l' : LimitedReader) : Prop :=
  bound l' = bound l /\ (pos (R l) <= pos (R l'))%nat
  /\ data (R l') = data (R l) /\ endErr (R l') = endErr (R l)
  /\ seeking (R l') = seeking (R l).


(** A decoder that returns without a single [Read]. *)
Definition returnsAtOnce {A : Type} (p : Prog A) : Prop :=
  exists a, p = Return a.

Definition allReturnAtOnce (D : BodyDecoders) : Prop :=
  returnsAtOnce (ParseStreamInfo D) /\ returnsAtOnce (VerifyPadding D)
  /\ returnsAtOnce (ParseApplication D) /\ returnsAtOnce (ParseSeekTable D)
  /\ returnsAtOnce (ParseVorbisComment D) /\ returnsAtOnce (ParseCueSheet D)
  /\ returnsAtOnce (ParsePicture D).

(** ** Sample body decoders *)

(** A decoder that calls [Read] twice with a buffer of [n] bytes and returns
    all it was given, with the last error. *)
Definition readTwice (n : nat) : Prog (list byte * option error) :=
  ReadThen n (fun bs1 _ =>
  ReadThen n (fun bs2 err => Return (bs1 ++ bs2, err))).

(** A padding verifier: reads [n] bytes and wants them all zero. *)
Definition zeroes (n : nat) : Prog (option error) :=
  ReadThen n (fun bs _ =>
    Return (if forallb (fun b => byte_val b =? 0) bs then None
            else Some (ErrBody "invalid padding"))).

(** A decoder that calls [Read] twice with a buffer of [n] bytes and keeps
    what it was given, whatever the errors. *)
Definition slurp (n : nat) : Prog (list byte * option error) :=
  ReadThen n (fun bs1 _ =>
  ReadThen n (fun bs2 _ => Return (bs1 ++ bs2, None))).

(** Decoders that ask for more than any of the sample blocks holds. *)
Definition greedyDecoders : BodyDecoders :=
  {| StreamInfo := list byte; Application := list byte; SeekTable := list byte;
     VorbisComment := list byte; CueSheet := list byte; Picture := list byte;
     ParseStreamInfo := slurp 40;
     VerifyPadding := zeroes 64;
     ParseApplication := slurp 40;
     ParseSeekTable := slurp 40;
     ParseVorbisComment := slurp 40;
     ParseCueSheet := slurp 40;
     ParsePicture := slurp 40 |}.

(** Decoders that return at once, without a single [Read]. *)
Definition lazyDecoders : BodyDecoders :=
  {| StreamInfo := unit; Application := unit; SeekTable := unit;
     VorbisComment := unit; CueSheet := unit; Picture := unit;
     ParseStreamInfo := Return (tt, None);
     VerifyPadding := Return None;
     ParseApplication := Return (tt, None);
     ParseSeekTable := Return (tt, None);
     ParseVorbisComment := Return (tt, None);
     ParseCueSheet := Return (tt, None);
     ParsePicture := Return (tt, None) |}.

(** The [ReadAll] buffer offering exactly [MinRead] bytes of room each time. *)
Definition noRoom : nat -> nat := fun _ => 0%nat.

(** ** Sample stores *)

(** A stream-info block of 34 bytes, a padding block of 10 bytes, a last
    vorbis-comment block of 57 bytes, and the first two bytes of an audio
    frame. *)
Definition threeBlocks : list byte :=
  encodeHeader false 0 34 ++ repeat x01 34
  ++ encodeHeader false 1 10 ++ repeat x00 10
  ++ encodeHeader true 4 57 ++ repeat x02 57
  ++ [xff; xf8].

(** A header that declares five body bytes, on a store that holds one. *)
Definition shortStore : list byte := encodeHeader false 0 5 ++ [x01].

Definition shortBlock (sk : Seeking) : Block greedyDecoders :=
  mkBlock (mkReader shortStore 4 EOF sk) (mkBlockHeader false TypeStreamInfo 5) NoBody.

(** A block of three body bytes followed by another block. *)
Definition twoBlocks : list byte :=
  encodeHeader false 0 3 ++ [x01; x02; x03] ++ encodeHeader true 1 2 ++ [x00; x00].

Definition firstOfTwo : Block greedyDecoders :=
  mkBlock (mkReader twoBlocks 4 EOF NotSeeker) (mkBlockHeader false TypeStreamInfo 3) NoBody.

(** ** Examples *)

Example header_streaminfo_34 :
  ParseBlockHeader (mkReader (encodeHeader false 0 34) 0 EOF NotSeeker)
  = (Ok (mkBlockHeader false TypeStreamInfo 34),
     mkReader (encodeHeader false 0 34) 4 EOF NotSeeker, []).
Proof. vm_compute. reflexivity. Qed.

Example header_reserved_100 :
  ParseBlockHeader (mkReader (encodeHeader true 100 16777215) 0 EOF NotSeeker)
  = (Ok (mkBlockHeader true TypeReserved 16777215),
     mkReader (encodeHeader true 100 16777215) 4 EOF NotSeeker,
     [reservedNotice 100]).
Proof. vm_compute. reflexivity. Qed.

Example header_invalid_127 :
  fst (fst (ParseBlockHeader (mkReader (encodeHeader false 127 5) 0 EOF NotSeeker)))
  = Err ErrInvalidBlockType.
Proof. vm_compute. reflexivity. Qed.

Example string_reserved : BlockType_String TypeReserved = "unknown block type 128"%string.
Proof. vm_compute. reflexivity. Qed.

(** The block opened on [shortStore] is [shortBlock]. *)
Example open_shortStore :
  fst (fst (NewBlock greedyDecoders (mkReader shortStore 0 EOF (Seeker None))))
  = Ok (shortBlock (Seeker None)).
Proof. vm_compute. reflexivity. Qed.

(** A decoder that over-reads gets the body and then [EOF], not the header of
    the next block. *)
Example overread_sees_EOF :
  exec (readTwice 40) (LimitReader (mkReader twoBlocks 4 EOF NotSeeker) 3)
  = (([x01; x02; x03], Some EOF),
     mkLimited (mkReader twoBlocks 7 EOF NotSeeker) 0).
Proof. vm_compute. reflexivity. Qed.

(** Walking [threeBlocks]: parse the first block, skip the second, skip the
    third; the cursor ends on the first byte of the audio frame. *)
Example walk_threeBlocks :
  forall sk, sk = NotSeeker \/ sk = Seeker None ->
  exists b1 b1' b2 b2' b3 b3',
    fst (fst (NewBlock greedyDecoders (mkReader threeBlocks 0 EOF sk))) = Ok b1
    /\ Parse greedyDecoders noRoom 1 b1 = Some (None, b1')
    /\ fst (fst (NewBlock greedyDecoders (r b1'))) = Ok b2
    /\ Skip greedyDecoders 11 b2 = Some (None, b2')
    /\ fst (fst (NewBlock greedyDecoders (r b2'))) = Ok b3
    /\ IsLast (Header b3) = true
    /\ Skip greedyDecoders 58 b3 = Some (None, b3')
    /\ pos (r b3') = 113%nat
    /\ drop (pos (r b3')) (data (r b3')) = [xff; xf8].
Proof.
  intros sk [-> | ->]; do 6 eexists;
    (split; [vm_compute; reflexivity |]);
    (split; [vm_compute; reflexivity |]);
    (split; [vm_compute; reflexivity |]);
    (split; [vm_compute; reflexivity |]);
    (split; [vm_compute; reflexivity |]);
    (split; [vm_compute; reflexivity |]);
    (split; [vm_compute; reflexivity |]);
    (split; [vm_compute; reflexivity |]); vm_compute; reflexivity.
Qed.

(** * Properties *)

(** ** Machine integers and bytes *)

Lemma int_small (z : Z) : - 2 ^ 63 <= z < 2 ^ 63 -> int z = z.
Proof.
  intros Hz. unfold int.
  destruct (Z.ltb_spec (z mod 2 ^ 64) (2 ^ 63)) as [Hlt | Hge];
    Z.div_mod_to_equations; lia.
Qed.

Lemma int_nonneg_le (z : Z) : 0 <= z -> int z <= z.
Proof.
  intros Hz. unfold int.
  destruct (Z.ltb_spec (z mod 2 ^ 64) (2 ^ 63)) as [Hlt | Hge];
    Z.div_mod_to_equations; lia.
Qed.

Lemma uint8_small (z : Z) : 0 <= z < 256 -> uint8 z = z.
Proof. intros Hz. unfold uint8. apply Z.mod_small. lia. Qed.

Lemma byte_val_range (b : byte) : 0 <= byte_val b < 256.
Proof.
  unfold byte_val. pose proof (Byte.to_N_bounded b) as Hb. lia.
Qed.

Lemma byte_val_of_Z (z : Z) : byte_val (byte_of_Z z) = z mod 256.
Proof.
  unfold byte_val, byte_of_Z.
  assert (Hr : 0 <= z mod 256 < 256) by (apply Z.mod_pos_bound; lia).
  destruct (Byte.of_N (Z.to_N (z mod 256))) as [b |] eqn:Hof.
  - apply Byte.to_of_N in Hof. rewrite Hof. lia.
  - apply Byte.of_N_None_iff in Hof. lia.
Qed.

(** Or-ing a bit into the freed low position is an addition. *)
Lemma lor_shiftl_bit (v : Z) (b : bool) :
  Z.lor (Z.shiftl v 1) (Z.b2z b) = 2 * v + Z.b2z b.
Proof.
  rewrite Z.shiftl_mul_pow2 by lia. change (2 ^ 1) with 2.
  pose proof (Z.add_lor_land (v * 2) (Z.b2z b)) as Hadd.
  assert (Hland : Z.land (v * 2) (Z.b2z b) = 0).
  { apply Z.bits_inj'. intros n Hn. rewrite Z.land_spec, Z.bits_0.
    destruct (Z.eq_dec n 0) as [-> | Hne].
    - replace (v * 2) with (2 * v) by lia. rewrite Z.testbit_even_0. reflexivity.
    - replace n with (Z.succ (n - 1)) by lia.
      destruct b; simpl Z.b2z.
      + change 1 with (2 * 0 + 1). rewrite Z.testbit_odd_succ by lia.
        rewrite Z.bits_0. apply andb_false_r.
      + rewrite Z.bits_0. apply andb_false_r. }
  rewrite Hland in Hadd. lia.
Qed.

(** Placing a field above [n] free low bits is an addition. *)
Lemma lor_shiftl_low (hi lo n : Z) :
  0 <= n -> 0 <= lo < 2 ^ n -> Z.lor (Z.shiftl hi n) lo = hi * 2 ^ n + lo.
Proof.
  intros Hn Hlo. rewrite Z.shiftl_mul_pow2 by lia.
  pose proof (Z.add_lor_land (hi * 2 ^ n) lo) as Hadd.
  assert (Hland : Z.land (hi * 2 ^ n) lo = 0).
  { apply Z.bits_inj'. intros i Hi. rewrite Z.land_spec, Z.bits_0.
    destruct (Z.lt_ge_cases i n) as [Hlt | Hge].
    - rewrite Z.mul_pow2_bits_low by lia. reflexivity.
    - rewrite <- (Z.mod_small lo (2 ^ n)) by lia.
      rewrite Z.mod_pow2_bits_high by lia. apply andb_false_r. }
  rewrite Hland in Hadd. lia.
Qed.

(** ** The reader *)

Lemma Read_spec (rd : Reader) (n : nat) :
  forall bs err rd', Read rd n = (bs, err, rd') ->
    bs = take n (drop (pos rd) (data rd)) /\
    rd' = set_pos rd (pos rd + length bs) /\
    (err = None \/ (err = Some (endErr rd) /\ bs = [])).
Proof.
  intros bs err rd' H. unfold Read in H.
  destruct n as [| n'].
  - inversion H; subst. rewrite take_0. simpl. split; [reflexivity |].
    split; [| left; reflexivity].
    destruct rd'; unfold set_pos; simpl. f_equal. lia.
  - destruct (take (S n') (drop (pos rd) (data rd))) as [| b t] eqn:Ht.
    + inversion H; subst. simpl. split; [reflexivity |].
      split; [| right; split; reflexivity].
      destruct rd'; unfold set_pos; simpl. f_equal. lia.
    + inversion H; subst. split; [reflexivity |].
      split; [reflexivity | left; reflexivity].
Qed.

Lemma Read_length (rd : Reader) (n : nat) :
  forall bs err rd', Read rd n = (bs, err, rd') -> (length bs <= n)%nat.
Proof.
  intros bs err rd' H. apply Read_spec in H as (-> & _ & _).
  rewrite length_take. lia.
Qed.

(** The error of a [Read] is determined by what it hands back. *)
Lemma Read_err (rd : Reader) (n : nat) :
  forall bs err rd', Read rd n = (bs, err, rd') ->
    err = match n, bs with
          | S _, [] => Some (endErr rd)
          | _, _ => None
          end.
Proof.
  intros bs err rd' H. unfold Read in H. destruct n as [| n'].
  - inversion H; reflexivity.
  - destruct (take (S n') (drop (pos rd) (data rd))) eqn:Ht;
      inversion H; subst; reflexivity.
Qed.

(** Reading one byte when one is there. *)
Lemma Read_next (pre rest : list byte) (b : byte) (e : error) (sk : Seeking) :
  Read (mkReader (pre ++ b :: rest) (length pre) e sk) 1
  = ([b], None, mkReader (pre ++ b :: rest) (length (pre ++ [b])) e sk).
Proof.
  unfold Read. simpl pos. simpl data. rewrite drop_app_length.
  simpl. unfold set_pos. simpl. rewrite length_app. simpl. reflexivity.
Qed.

(** ** Bit extraction *)

(** The bits still buffered come out of the buffered byte, high bit first. *)
Lemma ReadBits_buffered (k : nat) :
  forall (vl : Z) (rd : Reader) (buf : Z) (n : nat),
    (k <= n)%nat ->
    ReadBits k vl (mkBitReader rd buf n)
    = (Ok (vl * 2 ^ Z.of_nat k
           + (buf / 2 ^ Z.of_nat (n - k)) mod 2 ^ Z.of_nat k),
       mkBitReader rd buf (n - k)).
Proof.
  induction k as [| k IH]; intros vl rd buf n Hk.
  - simpl ReadBits. rewrite Nat.sub_0_r. change (2 ^ Z.of_nat 0) with 1.
    rewrite Z.mod_1_r. do 2 f_equal. lia.
  - destruct n as [| m]; [lia |].
    cbn [ReadBits fill br_n br_r br_buf Nat.pred].
    rewrite IH by lia. rewrite lor_shiftl_bit.
    replace (S m - S k)%nat with (m - k)%nat by lia.
    do 2 f_equal.
    set (x := buf / 2 ^ Z.of_nat (m - k)).
    assert (Hbit : Z.b2z (Z.testbit buf (Z.of_nat m)) = (x / 2 ^ Z.of_nat k) mod 2).
    { rewrite <- Z.testbit_spec' by lia. unfold x.
      rewrite Z.div_pow2_bits by lia. do 2 f_equal. lia. }
    rewrite Hbit.
    replace (2 ^ Z.of_nat (S k)) with (2 ^ Z.of_nat k * 2)
      by (rewrite Nat2Z.inj_succ, Z.pow_succ_r by lia; lia).
    rewrite Z.rem_mul_r by lia. lia.
Qed.

(** Reading [a + b] bits is reading [a] bits and then [b] more. *)
Lemma ReadBits_add (a b : nat) :
  forall (vl : Z) (br : BitReader),
    ReadBits (a + b) vl br
    = match ReadBits a vl br with
      | (Ok v, br') => ReadBits b v br'
      | (Err e, br') => (Err e, br')
      end.
Proof.
  induction a as [| a IH]; intros vl br.
  - reflexivity.
  - cbn [Nat.add ReadBits]. destruct (fill br) as [[e |] br'].
    + reflexivity.
    + apply IH.
Qed.

(** With nothing buffered, the next byte of the reader is fetched first. *)
Lemma ReadBits_refill (k : nat) (pre rest : list byte) (b : byte) (e : error)
    (sk : Seeking) (vl buf : Z) :
  ReadBits (S k) vl
    (mkBitReader (mkReader (pre ++ b :: rest) (length pre) e sk) buf 0)
  = ReadBits (S k) vl
      (mkBitReader (mkReader (pre ++ b :: rest) (length (pre ++ [b])) e sk)
         (byte_val b) 8).
Proof.
  cbn [ReadBits fill br_n br_r br_buf Nat.pred]. rewrite Read_next. reflexivity.
Qed.

(** A whole byte read on a byte boundary. *)
Lemma ReadBits_byte (pre rest : list byte) (b : byte) (e : error)
    (sk : Seeking) (vl buf : Z) :
  ReadBits 8 vl (mkBitReader (mkReader (pre ++ b :: rest) (length pre) e sk) buf 0)
  = (Ok (vl * 256 + byte_val b),
     mkBitReader (mkReader (pre ++ b :: rest) (length (pre ++ [b])) e sk)
       (byte_val b) 0).
Proof.
  rewrite ReadBits_refill, ReadBits_buffered by lia.
  cbn [Nat.sub]. change (2 ^ Z.of_nat 0) with 1. change (2 ^ Z.of_nat 8) with 256.
  rewrite Z.div_1_r. pose proof (byte_val_range b) as Hb.
  rewrite Z.mod_small by lia. reflexivity.
Qed.

(** The three header fields, in terms of the four bytes they are read from. *)
Lemma ReadFields_header (pre rest : list byte) (b0 b1 b2 b3 : byte)
    (e : error) (sk : Seeking) :
  ReadFields [1%nat; 7%nat; 24%nat]
    (NewReader (mkReader (pre ++ [b0; b1; b2; b3] ++ rest) (length pre) e sk))
  = (Ok [byte_val b0 / 128; byte_val b0 mod 128;
         byte_val b1 * 65536 + byte_val b2 * 256 + byte_val b3],
     mkBitReader
       (mkReader (pre ++ [b0; b1; b2; b3] ++ rest) (length pre + 4) e sk)
       (byte_val b3) 0).
Proof.
  unfold NewReader. cbn [ReadFields app].
  (* field 0: the first bit of the first byte *)
  rewrite ReadBits_refill, ReadBits_buffered by lia.
  (* field 1: its other seven bits *)
  rewrite ReadBits_buffered by lia.
  (* field 2: the next three bytes *)
  change 24%nat with (8 + (8 + 8))%nat. rewrite ReadBits_add.
  cbn [Nat.sub].
  replace (pre ++ b0 :: b1 :: b2 :: b3 :: rest)
    with ((pre ++ [b0]) ++ b1 :: b2 :: b3 :: rest) by (rewrite <- app_assoc; reflexivity).
  rewrite ReadBits_byte. cbv beta iota. rewrite ReadBits_add.
  replace ((pre ++ [b0]) ++ b1 :: b2 :: b3 :: rest)
    with (((pre ++ [b0]) ++ [b1]) ++ b2 :: b3 :: rest) by (rewrite <- !app_assoc; reflexivity).
  rewrite ReadBits_byte. cbv beta iota.
  replace (((pre ++ [b0]) ++ [b1]) ++ b2 :: b3 :: rest)
    with ((((pre ++ [b0]) ++ [b1]) ++ [b2]) ++ b3 :: rest) by (rewrite <- !app_assoc; reflexivity).
  rewrite ReadBits_byte. cbv beta iota.
  rewrite !length_app. cbn [length].
  replace (length pre + 1 + 1 + 1 + 1)%nat with (length pre + 4)%nat by lia.
  pose proof (byte_val_range b0) as H0.
  change (2 ^ Z.of_nat 0) with 1. change (2 ^ Z.of_nat 1) with 2.
  change (2 ^ Z.of_nat 7) with 128. rewrite Z.div_1_r.
  assert (H1 : 0 * 2 + (byte_val b0 / 128) mod 2 = byte_val b0 / 128)
    by (Z.div_mod_to_equations; lia).
  rewrite H1. repeat f_equal; lia.
Qed.

(** ** The header decoder *)

(** The packed word, as a sum. *)
Lemma header_word (isLast : bool) (code len : Z) :
  0 <= code < 128 -> 0 <= len < 2 ^ 24 ->
  Z.lor (Z.lor (Z.shiftl (Z.b2z isLast) 31) (Z.shiftl code 24)) len
  = Z.b2z isLast * 2 ^ 31 + code * 2 ^ 24 + len.
Proof.
  intros Hc Hl.
  replace (Z.shiftl (Z.b2z isLast) 31) with (Z.shiftl (Z.shiftl (Z.b2z isLast) 7) 24)
    by (rewrite Z.shiftl_shiftl by lia; reflexivity).
  rewrite <- Z.shiftl_lor.
  rewrite (lor_shiftl_low (Z.b2z isLast) code 7) by lia.
  rewrite lor_shiftl_low by lia. lia.
Qed.

(** The extractor recovers the three fields an encoded header packs. *)
Lemma ReadFields_encoded (isLast : bool) (code len : Z) (pre rest : list byte)
    (e : error) (sk : Seeking) :
  0 <= code < 128 -> 0 <= len < 2 ^ 24 ->
  exists buf,
    ReadFields [1%nat; 7%nat; 24%nat]
      (NewReader (mkReader (pre ++ encodeHeader isLast code len ++ rest)
                    (length pre) e sk))
    = (Ok [Z.b2z isLast; code; len],
       mkBitReader
         (mkReader (pre ++ encodeHeader isLast code len ++ rest)
            (length pre + 4) e sk) buf 0).
Proof.
  intros Hc Hl. unfold encodeHeader. rewrite header_word by assumption.
  set (w := Z.b2z isLast * 2 ^ 31 + code * 2 ^ 24 + len).
  eexists. rewrite ReadFields_header. rewrite !byte_val_of_Z.
  rewrite !Z.shiftr_div_pow2 by lia.
  assert (Hb : 0 <= Z.b2z isLast <= 1) by (destruct isLast; simpl; lia).
  assert (H0 : (w / 2 ^ 24) mod 256 / 128 = Z.b2z isLast)
    by (unfold w; Z.div_mod_to_equations; lia).
  assert (H1 : ((w / 2 ^ 24) mod 256) mod 128 = code)
    by (unfold w; Z.div_mod_to_equations; lia).
  assert (H2 : (w / 2 ^ 16) mod 256 * 65536 + (w / 2 ^ 8) mod 256 * 256 + w mod 256 = len)
    by (unfold w; Z.div_mod_to_equations; lia).
  rewrite H0, H1, H2. reflexivity.
Qed.

(** Whatever the reader holds, a field of [n] bits is below [2 ^ n]. *)
Lemma ReadBits_range (n : nat) :
  forall (vl : Z) (br br' : BitReader) (v : Z),
    ReadBits n vl br = (Ok v, br') ->
    vl * 2 ^ Z.of_nat n <= v < (vl + 1) * 2 ^ Z.of_nat n.
Proof.
  induction n as [| n IH]; intros vl br br' v H.
  - simpl in H. inversion H; subst. change (2 ^ Z.of_nat 0) with 1. lia.
  - cbn [ReadBits] in H. destruct (fill br) as [[e |] br1]; [discriminate |].
    apply IH in H. rewrite lor_shiftl_bit in H.
    rewrite Nat2Z.inj_succ, Z.pow_succ_r by lia.
    assert (Hp : 0 < 2 ^ Z.of_nat n) by (apply Z.pow_pos_nonneg; lia).
    destruct (Z.testbit (br_buf br1) (Z.of_nat (Nat.pred (br_n br1))));
      simpl Z.b2z in H; nia.
Qed.

(** The shape of what [ReadFields] yields for the header's three widths. *)
Lemma ReadFields_three (br br' : BitReader) (fields : list Z) :
  ReadFields [1%nat; 7%nat; 24%nat] br = (Ok fields, br') ->
  exists f0 f1 f2,
    fields = [f0; f1; f2] /\ 0 <= f0 < 2 /\ 0 <= f1 < 128 /\ 0 <= f2 < 2 ^ 24.
Proof.
  intros H. cbn [ReadFields] in H.
  destruct (ReadBits 1 0 br) as [[f0 | e0] br0] eqn:H0; [| discriminate].
  destruct (ReadBits 7 0 br0) as [[f1 | e1] br1] eqn:H1; [| discriminate].
  destruct (ReadBits 24 0 br1) as [[f2 | e2] br2] eqn:H2; [| discriminate].
  inversion H; subst.
  apply ReadBits_range in H0, H1, H2.
  exists f0, f1, f2.
  change (2 ^ Z.of_nat 1) with 2 in H0. change (2 ^ Z.of_nat 7) with 128 in H1.
  change (Z.of_nat 24) with 24 in H2.
  repeat split; lia.
Qed.

(** C1: a header that packs a flag, a type code 0 <= c <= 6 and a 24-bit length
    L decodes to the header with that flag, the type of the table for c and
    the length L; the reader is left exactly four bytes further and nothing is
    logged. *)
Theorem C1_known_header_decodes (isLast : bool) (code len : Z)
    (pre rest : list byte) (e : error) (sk : Seeking) :
  0 <= code <= 6 -> 0 <= len <= 16777215 ->
  ParseBlockHeader
    (mkReader (pre ++ encodeHeader isLast code len ++ rest) (length pre) e sk)
  = (Ok {| IsLast := isLast; BlockType_ := typeOfCode code; Length := len |},
     mkReader (pre ++ encodeHeader isLast code len ++ rest) (length pre + 4) e sk,
     []).
Proof.
  intros Hc Hl. unfold ParseBlockHeader.
  destruct (ReadFields_encoded isLast code len pre rest e sk) as [buf ->];
    [lia | lia |].
  cbn [nth br_r]. rewrite int_small by lia.
  assert (Hlast : negb (Z.b2z isLast =? 0) = isLast) by (destruct isLast; reflexivity).
  rewrite Hlast.
  assert (Hcases : code = 0 \/ code = 1 \/ code = 2 \/ code = 3 \/ code = 4
                   \/ code = 5 \/ code = 6) by lia.
  destruct Hcases as [-> | [-> | [-> | [-> | [-> | [-> | ->]]]]]]; reflexivity.
Qed.

Lemma C1_known_header_decodes_witness :
  ParseBlockHeader
    (mkReader ([] ++ encodeHeader false 0 34 ++ []) (length (@nil byte)) EOF NotSeeker)
  = (Ok {| IsLast := false; BlockType_ := typeOfCode 0; Length := 34 |},
     mkReader ([] ++ encodeHeader false 0 34 ++ []) (length (@nil byte) + 4) EOF NotSeeker,
     []).
Proof. apply (C1_known_header_decodes false 0 34 [] [] EOF NotSeeker); lia. Defined.

(** C4: a header whose type code is 127 makes the decoder fail with the
    invalid-block-type error, whatever its flag and its length; no header is
    produced. *)
Theorem C4_invalid_code_fails (isLast : bool) (len : Z)
    (pre rest : list byte) (e : error) (sk : Seeking) :
  0 <= len <= 16777215 ->
  fst (ParseBlockHeader
         (mkReader (pre ++ encodeHeader isLast 127 len ++ rest) (length pre) e sk))
  = (Err ErrInvalidBlockType,
     mkReader (pre ++ encodeHeader isLast 127 len ++ rest) (length pre + 4) e sk)
  /\ is_format_error ErrInvalidBlockType = true
  /\ is_io_error ErrInvalidBlockType = false.
Proof.
  intros Hl. unfold ParseBlockHeader.
  destruct (ReadFields_encoded isLast 127 len pre rest e sk) as [buf ->];
    [lia | lia |].
  cbn [nth br_r]. repeat split; reflexivity.
Qed.

Lemma C4_invalid_code_fails_witness :
  fst (ParseBlockHeader
         (mkReader ([] ++ encodeHeader true 127 5 ++ []) (length (@nil byte)) EOF NotSeeker))
  = (Err ErrInvalidBlockType,
     mkReader ([] ++ encodeHeader true 127 5 ++ []) (length (@nil byte) + 4) EOF NotSeeker)
  /\ is_format_error ErrInvalidBlockType = true
  /\ is_io_error ErrInvalidBlockType = false.
Proof. apply (C4_invalid_code_fails true 5 [] [] EOF NotSeeker); lia. Defined.

(** C5: a header whose type code c is between 7 and 126 decodes successfully
    to a header of type Reserved, and exactly one notice is logged, which
    names c in decimal. *)
Theorem C5_reserved_code_decodes (isLast : bool) (code len : Z)
    (pre rest : list byte) (e : error) (sk : Seeking) :
  7 <= code <= 126 -> 0 <= len <= 16777215 ->
  ParseBlockHeader
    (mkReader (pre ++ encodeHeader isLast code len ++ rest) (length pre) e sk)
  = (Ok {| IsLast := isLast; BlockType_ := TypeReserved; Length := len |},
     mkReader (pre ++ encodeHeader isLast code len ++ rest) (length pre + 4) e sk,
     [("meta.ParseBlockHeader: reserved block type " ++ fmt_d code ++ "."
       ++ String (Ascii.ascii_of_nat 10) EmptyString)%string]).
Proof.
  intros Hc Hl. unfold ParseBlockHeader.
  destruct (ReadFields_encoded isLast code len pre rest e sk) as [buf ->];
    [lia | lia |].
  cbn [nth br_r]. rewrite int_small by lia.
  assert (Hlast : negb (Z.b2z isLast =? 0) = isLast) by (destruct isLast; reflexivity).
  rewrite Hlast.
  repeat (match goal with
          | |- context [code =? ?k] =>
              destruct (Z.eqb_spec code k) as [Heq | _]; [lia |]
          end).
  destruct (Z.leb_spec 7 code) as [_ | Hlt]; [| lia].
  destruct (Z.leb_spec code 126) as [_ | Hgt]; [| lia].
  cbn [andb]. unfold reservedNotice. rewrite uint8_small by lia. reflexivity.
Qed.

Lemma C5_reserved_code_decodes_witness :
  ParseBlockHeader
    (mkReader ([] ++ encodeHeader false 42 3 ++ []) (length (@nil byte)) EOF NotSeeker)
  = (Ok {| IsLast := false; BlockType_ := TypeReserved; Length := 3 |},
     mkReader ([] ++ encodeHeader false 42 3 ++ []) (length (@nil byte) + 4) EOF NotSeeker,
     [("meta.ParseBlockHeader: reserved block type " ++ fmt_d 42 ++ "."
       ++ String (Ascii.ascii_of_nat 10) EmptyString)%string]).
Proof. apply (C5_reserved_code_decodes false 42 3 [] [] EOF NotSeeker); lia. Defined.

(** ** The limited reader *)

(** Everything one [Read] through a limited reader does. *)
Lemma LimitedReader_Read_inv (l : LimitedReader) (n : nat) :
  forall bs err l', LimitedReader_Read l n = (bs, err, l') ->
    bs = take (Z.to_nat (Z.min (Z.of_nat n) (N l))) (drop (pos (R l)) (data (R l)))
    /\ R l' = set_pos (R l) (pos (R l) + length bs)
    /\ N l' = N l - Z.of_nat (length bs)
    /\ Z.of_nat (length bs) <= Z.max 0 (N l)
    /\ (err = None \/ (bs = [] /\ (err = Some EOF \/ err = Some (endErr (R l)))))
    /\ (err = None -> (0 < n)%nat -> 0 < N l /\ bs <> []).
Proof.
  intros bs err l' H. unfold LimitedReader_Read in H.
  destruct (Z.leb_spec (N l) 0) as [Hle | Hgt].
  - inversion H; subst. cbn [length].
    replace (Z.to_nat (Z.min (Z.of_nat n) (N l'))) with 0%nat by lia.
    rewrite take_0. split_and!; try lia.
    + reflexivity.
    + destruct (R l'); unfold set_pos; simpl. f_equal. lia.
    + right. split; [reflexivity | left; reflexivity].
    + discriminate.
  - set (n' := if N l <? Z.of_nat n then Z.to_nat (N l) else n) in H.
    assert (Hn' : n' = Z.to_nat (Z.min (Z.of_nat n) (N l))).
    { unfold n'. destruct (Z.ltb_spec (N l) (Z.of_nat n)); lia. }
    destruct (Read (R l) n') as [[bs0 err0] rd0] eqn:HR.
    inversion H; subst bs0 err0 l'. cbn [R N].
    pose proof (Read_length _ _ _ _ _ HR) as Hlen.
    pose proof HR as HR0.
    apply Read_spec in HR as (Hbs & Hrd & Herr).
    rewrite <- Hn'. split_and!; try assumption; try lia.
    + destruct Herr as [-> | [-> ->]]; [left; reflexivity |].
      right. split; [reflexivity | right; reflexivity].
    + intros -> Hn. split; [lia |]. unfold Read in HR0.
      destruct n' as [| m]; [lia |].
      destruct (take (S m) (drop (pos (R l)) (data (R l)))) eqn:Ht;
        inversion HR0; subst; discriminate.
Qed.

Lemma LimitedReader_Read_bound (l : LimitedReader) (n : nat) :
  forall bs err l', LimitedReader_Read l n = (bs, err, l') ->
    bound l' = bound l /\ (pos (R l) <= pos (R l'))%nat
    /\ data (R l') = data (R l) /\ endErr (R l') = endErr (R l)
    /\ seeking (R l') = seeking (R l).
Proof.
  intros bs err l' H.
  apply LimitedReader_Read_inv in H as (_ & HR & HN & Hle & _ & _).
  unfold bound. rewrite HR, HN. unfold set_pos. cbn [pos data endErr seeking].
  split_and!; try reflexivity; lia.
Qed.

Lemma take_drop_window {A : Type} (m p b : nat) (d : list A) :
  (p + m <= b)%nat -> take m (drop p d) = take m (drop p (take b d)).
Proof.
  intros H. rewrite !take_drop_commute, take_take.
  replace ((p + m) `min` b)%nat with (p + m)%nat by lia. reflexivity.
Qed.

Lemma LimitedReader_Read_same_window (l1 l2 : LimitedReader) (n : nat) :
  same_window l1 l2 ->
  forall bs err l1', LimitedReader_Read l1 n = (bs, err, l1') ->
    exists l2', LimitedReader_Read l2 n = (bs, err, l2') /\ same_window l1' l2'.
Proof.
  intros (HN & Hpos & Hend & Htake) bs err l1' H1.
  destruct (LimitedReader_Read l2 n) as [[bs2 err2] l2'] eqn:H2.
  pose proof (LimitedReader_Read_bound _ _ _ _ _ H1) as (Hb1 & _ & Hd1 & He1 & _).
  pose proof (LimitedReader_Read_bound _ _ _ _ _ H2) as (Hb2 & _ & Hd2 & He2 & _).
  assert (Hbs : bs2 = bs).
  { apply LimitedReader_Read_inv in H1 as (-> & _). 
    apply LimitedReader_Read_inv in H2 as (-> & _).
    rewrite <- HN, <- Hpos.
    set (m := Z.to_nat (Z.min (Z.of_nat n) (N l1))).
    rewrite (take_drop_window m (pos (R l1)) (bound l1) (data (R l1)))
      by (unfold bound, m; lia).
    rewrite (take_drop_window m (pos (R l1)) (bound l1) (data (R l2)))
      by (unfold bound, m; lia).
    rewrite Htake. reflexivity. }
  subst bs2.
  assert (Herr : err2 = err).
  { unfold LimitedReader_Read in H1, H2. rewrite <- HN in H2.
    destruct (N l1 <=? 0); [congruence |].
    destruct (Read (R l1) _) as [[x1 e1] r1] eqn:HR1.
    destruct (Read (R l2) _) as [[x2 e2] r2] eqn:HR2.
    inversion H1; subst. inversion H2; subst.
    apply Read_err in HR1, HR2. rewrite HR1, HR2, Hend. reflexivity. }
  subst err2. exists l2'. split; [reflexivity |].
  apply LimitedReader_Read_inv in H1 as (_ & HR1 & HN1 & _).
  apply LimitedReader_Read_inv in H2 as (_ & HR2 & HN2 & _).
  unfold same_window. rewrite Hb1, Hd1, Hd2, He1, He2, HN1, HN2, HR1, HR2.
  unfold set_pos. cbn [pos]. repeat split; congruence.
Qed.

Lemma advanced_refl (l : LimitedReader) : advanced l l.
Proof. unfold advanced. split_and!; reflexivity. Qed.

Lemma advanced_trans (l1 l2 l3 : LimitedReader) :
  advanced l1 l2 -> advanced l2 l3 -> advanced l1 l3.
Proof.
  unfold advanced. intros (? & ? & ? & ? & ?) (? & ? & ? & ? & ?).
  split_and!; try congruence; lia.
Qed.

(** A cursor that advanced under a limit stays within it. *)
Lemma advanced_within (rd : Reader) (n : Z) (l' : LimitedReader) :
  advanced (LimitReader rd n) l' ->
  (pos rd <= pos (R l') <= pos rd + Z.to_nat n)%nat
  /\ data (R l') = data rd /\ endErr (R l') = endErr rd
  /\ seeking (R l') = seeking rd.
Proof.
  unfold advanced, bound, LimitReader. cbn [R N].
  intros (Hb & Hp & Hd & He & Hs). split_and!; try assumption; lia.
Qed.

Lemma exec_advanced {A : Type} (p : Prog A) :
  forall l, advanced l (snd (exec p l)).
Proof.
  induction p as [a | n k IH]; intros l.
  - apply advanced_refl.
  - cbn [exec]. destruct (LimitedReader_Read l n) as [[bs err] l1] eqn:HR.
    apply advanced_trans with l1; [| apply IH].
    apply LimitedReader_Read_bound in HR. exact HR.
Qed.

Lemma exec_same_window {A : Type} (p : Prog A) :
  forall l1 l2, same_window l1 l2 ->
    fst (exec p l1) = fst (exec p l2)
    /\ same_window (snd (exec p l1)) (snd (exec p l2)).
Proof.
  induction p as [a | n k IH]; intros l1 l2 Hw.
  - split; [reflexivity | exact Hw].
  - cbn [exec]. destruct (LimitedReader_Read l1 n) as [[bs err] l1'] eqn:H1.
    destruct (LimitedReader_Read_same_window _ _ n Hw _ _ _ H1) as (l2' & -> & Hw').
    apply IH. exact Hw'.
Qed.

Section ReadAllFacts.

Variable room : nat -> nat.

Lemma ReadAll_advanced (fuel : nat) :
  forall l buf bs err l',
    ReadAll room fuel l buf = Some (bs, err, l') -> advanced l l'.
Proof.
  induction fuel as [| fuel IH]; intros l buf bs err l' H; [discriminate |].
  cbn [ReadAll] in H.
  destruct (LimitedReader_Read l _) as [[bs1 e1] l1] eqn:HR.
  apply LimitedReader_Read_bound in HR.
  destruct e1 as [e1 |].
  - assert (l' = l1) as -> by (destruct e1; inversion H; reflexivity).
    exact HR.
  - apply advanced_trans with l1; [exact HR |]. eapply IH. exact H.
Qed.

(** With more fuel than the limit leaves bytes to read, [ReadAll] returns. *)
Lemma ReadAll_total (fuel : nat) :
  forall l buf, (Z.to_nat (N l) < fuel)%nat ->
    exists bs err l', ReadAll room fuel l buf = Some (bs, err, l').
Proof.
  induction fuel as [| fuel IH]; intros l buf Hf; [lia |].
  cbn [ReadAll].
  destruct (LimitedReader_Read l _) as [[bs1 e1] l1] eqn:HR.
  apply LimitedReader_Read_inv in HR as (_ & _ & HN & _ & _ & Hprog).
  destruct e1 as [e1 |].
  - destruct e1; eauto.
  - destruct Hprog as [Hpos Hne]; [reflexivity | unfold MinRead; lia |].
    apply IH. rewrite HN. destruct bs1; [congruence |]. cbn [length]. lia.
Qed.

Lemma ReadAll_same_window (fuel : nat) :
  forall l1 l2 buf bs err l1',
    same_window l1 l2 ->
    ReadAll room fuel l1 buf = Some (bs, err, l1') ->
    exists l2', ReadAll room fuel l2 buf = Some (bs, err, l2')
                /\ same_window l1' l2'.
Proof.
  induction fuel as [| fuel IH]; intros l1 l2 buf bs err l1' Hw H; [discriminate |].
  cbn [ReadAll] in *.
  destruct (LimitedReader_Read l1 _) as [[bs1 e1] l1a] eqn:H1.
  destruct (LimitedReader_Read_same_window _ _ _ Hw _ _ _ H1) as (l2a & -> & Hw').
  destruct e1 as [e1 |].
  - exists l2a. destruct e1; inversion H; subst; split; (reflexivity || exact Hw').
  - eapply IH; eassumption.
Qed.

End ReadAllFacts.

(** ** Parse *)

Section ParseFacts.

Context (D : BodyDecoders).
Variable room : nat -> nat.

Lemma parseWith_outcome {A : Type} (p : Prog (A * option error))
    (wrap : A -> BodyValue D) (block : Block D) (lr : LimitedReader) :
  forall err block', parseWith D p wrap block lr = (err, block') ->
    Header block' = Header block
    /\ exists l', advanced lr l' /\ r block' = R l'.
Proof.
  intros err block' H. unfold parseWith in H.
  pose proof (exec_advanced p lr) as Hadv.
  destruct (exec p lr) as [[x e] lr'] eqn:He. inversion H; subst.
  split; [reflexivity |]. exists lr'. split; [exact Hadv | reflexivity].
Qed.

(** When [Parse] returns, the header is the one it started with and the
    reader has only advanced under the limit. *)
Lemma Parse_outcome (fuel : nat) (block : Block D) :
  forall err block', Parse D room fuel block = Some (err, block') ->
    Header block' = Header block
    /\ exists l',
         advanced (LimitReader (r block) (int64 (Length (Header block)))) l'
         /\ r block' = R l'.
Proof.
  intros err block' H. unfold Parse in H.
  destruct (dispatch (BlockType_ (Header block)));
    try (inversion H as [H']; eapply parseWith_outcome; exact H').
  - (* padding *)
    pose proof (exec_advanced (VerifyPadding D)
                 (LimitReader (r block) (int64 (Length (Header block))))) as Hadv.
    destruct (exec (VerifyPadding D) _) as [e lr'] eqn:He.
    inversion H; subst. split; [reflexivity |]. eauto.
  - (* reserved *)
    destruct (ReadAll room fuel _ []) as [[[bs e] lr'] |] eqn:HA; [| discriminate].
    inversion H; subst. apply ReadAll_advanced in HA.
    split; [reflexivity |]. eauto.
  - (* default *)
    inversion H; subst. split; [reflexivity |].
    eexists. split; [apply advanced_refl | reflexivity].
Qed.

(** With more fuel than the declared length, [Parse] returns. *)
Lemma Parse_total (fuel : nat) (block : Block D) :
  (Z.to_nat (int64 (Length (Header block))) < fuel)%nat ->
  exists err block', Parse D room fuel block = Some (err, block').
Proof.
  intros Hf. unfold Parse, parseWith.
  destruct (dispatch (BlockType_ (Header block)));
    try (destruct (exec _ _) as [[x e] lr']; eauto; fail).
  - destruct (exec _ _) as [e lr']; eauto.
  - destruct (ReadAll_total room fuel
                (LimitReader (r block) (int64 (Length (Header block)))) [])
      as (bs & e & l' & ->); [exact Hf | eauto].
  - eauto.
Qed.

Lemma parseWith_same_window {A : Type} (p : Prog (A * option error))
    (wrap : A -> BodyValue D) (b1 b2 : Block D) (l1 l2 : LimitedReader) :
  same_window l1 l2 ->
  fst (parseWith D p wrap b1 l1) = fst (parseWith D p wrap b2 l2)
  /\ Body (snd (parseWith D p wrap b1 l1)) = Body (snd (parseWith D p wrap b2 l2))
  /\ pos (r (snd (parseWith D p wrap b1 l1)))
     = pos (r (snd (parseWith D p wrap b2 l2))).
Proof.
  intros Hw. unfold parseWith.
  destruct (exec_same_window p l1 l2 Hw) as (Hfst & Hsnd).
  destruct (exec p l1) as [[x1 e1] l1'], (exec p l2) as [[x2 e2] l2'].
  cbn [fst snd] in *. inversion Hfst; subst.
  destruct Hsnd as (_ & Hpos & _). split_and!; (reflexivity || exact Hpos).
Qed.

(** What [Parse] returns does not depend on the bytes past the bound. *)
Lemma Parse_same_window (fuel : nat) (b1 b2 : Block D) :
  Header b2 = Header b1 -> Body b2 = Body b1 ->
  same_window (LimitReader (r b1) (int64 (Length (Header b1))))
              (LimitReader (r b2) (int64 (Length (Header b1)))) ->
  forall err b1', Parse D room fuel b1 = Some (err, b1') ->
    exists b2', Parse D room fuel b2 = Some (err, b2')
                /\ Body b2' = Body b1' /\ pos (r b2') = pos (r b1').
Proof.
  intros HH HB Hw err b1' H. unfold Parse in *. rewrite HH.
  destruct (dispatch (BlockType_ (Header b1)));
    try (match type of H with
         | Some (parseWith D ?p ?wrap _ _) = _ =>
             destruct (parseWith_same_window p wrap b1 b2 _ _ Hw) as (He & Hb & Hp);
             destruct (parseWith D p wrap b1 _) as [e1 x1];
             destruct (parseWith D p wrap b2 _) as [e2 x2];
             cbn [fst snd] in *; inversion H; subst; eauto
         end; fail).
  - (* padding *)
    destruct (exec_same_window (VerifyPadding D) _ _ Hw) as (Hfst & Hsnd).
    destruct (exec (VerifyPadding D) (LimitReader (r b1) _)) as [e1 l1'].
    destruct (exec (VerifyPadding D) (LimitReader (r b2) _)) as [e2 l2'].
    cbn [fst snd] in *. inversion H; subst. destruct Hsnd as (_ & Hpos & _).
    eexists. split; [reflexivity |]. cbn [Body r]. split; [exact HB | congruence].
  - (* reserved *)
    destruct (ReadAll room fuel (LimitReader (r b1) _) [])
      as [[[bs e] l1'] |] eqn:HA; [| discriminate].
    destruct (ReadAll_same_window room fuel _ _ _ _ _ _ Hw HA) as (l2' & -> & Hw').
    inversion H; subst. destruct Hw' as (_ & Hpos & _).
    eexists. split; [reflexivity |]. cbn [Body r]. split; [reflexivity | congruence].
  - (* default *)
    inversion H; subst. eexists. split; [reflexivity |].
    destruct Hw as (_ & Hpos & _). cbn [R LimitReader] in Hpos. split; congruence.
Qed.

(** C2: whatever the declared type and the body decoder, Parse returns (given
    fuel for the reads of the raw body) having moved the reader forward by at
    most the declared length, over an unchanged store; and what it returns is
    the same on any store that agrees up to the end of the body: no byte of
    the following block reaches the decoder. *)
Theorem C2_parse_reads_within_length (fuel : nat) (block : Block D) :
  0 <= Length (Header block) ->
  (Z.to_nat (Length (Header block)) < fuel)%nat ->
  exists err block',
    Parse D room fuel block = Some (err, block')
    /\ (pos (r block) <= pos (r block')
        <= pos (r block) + Z.to_nat (Length (Header block)))%nat
    /\ data (r block') = data (r block)
    /\ forall rd2,
         pos rd2 = pos (r block) -> endErr rd2 = endErr (r block) ->
         take (pos (r block) + Z.to_nat (Length (Header block))) (data rd2)
         = take (pos (r block) + Z.to_nat (Length (Header block))) (data (r block)) ->
         exists block2',
           Parse D room fuel (mkBlock rd2 (Header block) (Body block))
           = Some (err, block2')
           /\ Body block2' = Body block' /\ pos (r block2') = pos (r block').
Proof.
  intros HL Hf.
  pose proof (int_nonneg_le _ HL) as Hint.
  destruct (Parse_total fuel block) as (err & block' & HP); [unfold int64; lia |].
  exists err, block'. split; [exact HP |].
  destruct (Parse_outcome fuel block err block' HP) as (_ & l' & Hadv & Hr).
  apply advanced_within in Hadv as (Hpos & Hdata & _).
  rewrite <- Hr in Hpos, Hdata.
  split; [unfold int64 in Hpos; lia |]. split; [exact Hdata |].
  intros rd2 Hp2 He2 Ht.
  apply (Parse_same_window fuel block (mkBlock rd2 (Header block) (Body block)));
    [reflexivity | reflexivity | | exact HP].
  unfold same_window, bound, LimitReader. cbn [R N r].
  split_and!; try congruence.
  set (b := (pos (r block) + Z.to_nat (int64 (Length (Header block))))%nat).
  set (B := (pos (r block) + Z.to_nat (Length (Header block)))%nat) in Ht.
  assert (HbB : (b <= B)%nat) by (unfold b, B, int64; lia).
  replace b with (b `min` B)%nat by lia.
  rewrite <- !take_take. rewrite Ht. reflexivity.
Qed.

End ParseFacts.

(** ** Skip *)

Lemma copyBufSize_pos : (0 < copyBufSize)%nat.
Proof. unfold copyBufSize. lia. Qed.

Lemma set_pos_same (rd : Reader) : set_pos rd (pos rd) = rd.
Proof. destruct rd; reflexivity. Qed.

Lemma set_pos_set_pos (rd : Reader) (p q : nat) :
  set_pos (set_pos rd p) q = set_pos rd q.
Proof. reflexivity. Qed.

(** The error a limited reader reports, spelled out. *)
Lemma LimitedReader_Read_err (l : LimitedReader) (n : nat) :
  forall bs err l', LimitedReader_Read l n = (bs, err, l') ->
    (0 < n)%nat ->
    (N l <= 0 -> err = Some EOF)
    /\ (0 < N l -> bs = [] -> err = Some (endErr (R l)) /\ avail (R l) = 0%nat)
    /\ (0 < N l -> bs <> [] -> err = None).
Proof.
  intros bs err l' H Hn. pose proof H as H0.
  apply LimitedReader_Read_inv in H0 as (Hbs & _).
  unfold LimitedReader_Read in H.
  destruct (Z.leb_spec (N l) 0) as [Hle | Hgt].
  - inversion H; subst. split_and!; intros; (reflexivity || lia).
  - destruct (Read (R l) _) as [[bs0 err0] rd0] eqn:HR.
    inversion H; subst bs0 err0 l'. apply Read_err in HR.
    split_and!; [lia | |].
    + intros _ Hnil. rewrite Hnil in HR.
      destruct (if N l <? Z.of_nat n then Z.to_nat (N l) else n) as [| k] eqn:Hk;
        [destruct (Z.ltb_spec (N l) (Z.of_nat n)); lia |].
      split; [exact HR |].
      rewrite Hnil in Hbs. symmetry in Hbs.
      apply (f_equal length) in Hbs. rewrite length_take, length_drop in Hbs.
      cbn [length] in Hbs. unfold avail. lia.
    + intros _ Hne. rewrite HR. destruct bs; [congruence |].
      destruct (if N l <? Z.of_nat n then Z.to_nat (N l) else n); reflexivity.
Qed.

(** What [io.Copy] into the void does under a limit: it consumes the bytes
    available up to the limit, and reports the reader's own error only when
    the store gives out first and that error is not [EOF]. *)
Lemma Copy_result (fuel : nat) :
  forall (l : LimitedReader) (written : Z),
    0 <= N l -> (Z.to_nat (N l) < fuel)%nat ->
    let m := (Z.to_nat (N l) `min` avail (R l))%nat in
    Copy fuel l written
    = Some (written + Z.of_nat m,
            (if (avail (R l) <? Z.to_nat (N l))%nat
             then match endErr (R l) with EOF => None | e => Some e end
             else None),
            {| R := set_pos (R l) (pos (R l) + m); N := N l - Z.of_nat m |}).
Proof.
  induction fuel as [| fuel IH]; intros l written HN Hf; [lia |].
  cbn zeta. cbn [Copy].
  destruct (LimitedReader_Read l copyBufSize) as [[bs er] l1] eqn:HR.
  pose proof (LimitedReader_Read_err _ _ _ _ _ HR copyBufSize_pos) as (E0 & E1 & E2).
  pose proof (LimitedReader_Read_inv _ _ _ _ _ HR) as (Hbs & HR1 & HN1 & Hle & _ & _).
  assert (Hlen : length bs = (Z.to_nat (Z.of_nat copyBufSize `min` N l) `min` avail (R l))%nat).
  { rewrite Hbs, length_take, length_drop. unfold avail. reflexivity. }
  destruct (Z.eq_dec (N l) 0) as [Hz | Hnz].
  - (* the limit is reached *)
    rewrite E0 by lia.
    assert (Hl0 : length bs = 0%nat) by lia.
    replace (Z.to_nat (N l) `min` avail (R l))%nat with 0%nat by lia.
    replace (avail (R l) <? Z.to_nat (N l))%nat with false
      by (symmetry; apply Nat.ltb_ge; lia).
    rewrite Hl0. do 2 f_equal. destruct l1 as [R1 N1]. cbn [R N] in *.
    rewrite HR1, HN1, Hl0. reflexivity.
  - destruct bs as [| b bs'].
    + (* the store gave out *)
      destruct E1 as [-> Hav]; [lia | reflexivity |].
      rewrite Hav. replace (Z.to_nat (N l) `min` 0)%nat with 0%nat by lia.
      replace (0 <? Z.to_nat (N l))%nat with true
        by (symmetry; apply Nat.ltb_lt; lia).
      cbn [length] in *. destruct l1 as [R1 N1]. cbn [R N] in *.
      rewrite HR1, HN1. destruct (endErr (R l)); reflexivity.
    + (* some bytes were read *)
      rewrite E2 by (lia || discriminate).
      set (len := length (b :: bs')) in *.
      assert (Hpos : (0 < len)%nat) by (unfold len; cbn [length]; lia).
      rewrite IH by (rewrite HN1; lia).
      assert (Hav1 : avail (R l1) = (avail (R l) - len)%nat).
      { rewrite HR1. unfold avail, set_pos. cbn [data pos]. lia. }
      rewrite Hav1, HN1, HR1. cbn [pos set_pos data endErr seeking].
      assert (Hm : (Z.to_nat (N l - Z.of_nat len) `min` (avail (R l) - len)
                    = Z.to_nat (N l) `min` avail (R l) - len)%nat) by lia.
      rewrite Hm.
      assert (Hb : ((avail (R l) - len <? Z.to_nat (N l - Z.of_nat len))
                    = (avail (R l) <? Z.to_nat (N l)))%nat).
      { destruct (Nat.ltb_spec (avail (R l)) (Z.to_nat (N l)));
          [apply Nat.ltb_lt | apply Nat.ltb_ge]; lia. }
      rewrite Hb. f_equal. f_equal; [f_equal; lia |].
      unfold set_pos. cbn [data pos endErr seeking]. f_equal; [f_equal |]; lia.
Qed.

(** [CopyN] either discards the [n] bytes asked for, or stops where the store
    gives out and reports the reader's error. *)
Lemma CopyN_result (fuel : nat) (rd : Reader) (n : Z) :
  0 <= n -> (Z.to_nat n < fuel)%nat ->
  let m := (Z.to_nat n `min` avail rd)%nat in
  CopyN fuel rd n
  = Some (Z.of_nat m,
          (if (avail rd <? Z.to_nat n)%nat then Some (endErr rd) else None),
          set_pos rd (pos rd + m)).
Proof.
  intros Hn Hf. cbn zeta. unfold CopyN.
  rewrite Copy_result by (cbn [LimitReader N]; lia).
  cbn [LimitReader N R]. rewrite Z.add_0_l.
  destruct (Nat.ltb_spec (avail rd) (Z.to_nat n)) as [Hlt | Hge].
  - destruct (Z.eqb_spec (Z.of_nat (Z.to_nat n `min` avail rd)) n) as [Heq | Hne];
      [lia |].
    destruct (endErr rd) eqn:He; try reflexivity.
    destruct (Z.ltb_spec (Z.of_nat (Z.to_nat n `min` avail rd)) n); [reflexivity | lia].
  - destruct (Z.eqb_spec (Z.of_nat (Z.to_nat n `min` avail rd)) n) as [Heq | Hne];
      [| lia].
    rewrite <- Heq at 1. reflexivity.
Qed.

(** A header with a type code other than 127 decodes, to a header that
    carries the flag and the length it was packed with, and leaves the reader
    four bytes further. *)
Lemma ParseBlockHeader_encoded_ok (isLast : bool) (code len : Z)
    (pre rest : list byte) (e : error) (sk : Seeking) :
  0 <= code <= 126 -> 0 <= len <= 16777215 ->
  exists t lg,
    ParseBlockHeader
      (mkReader (pre ++ encodeHeader isLast code len ++ rest) (length pre) e sk)
    = (Ok {| IsLast := isLast; BlockType_ := t; Length := len |},
       mkReader (pre ++ encodeHeader isLast code len ++ rest) (length pre + 4) e sk,
       lg).
Proof.
  intros Hc Hl. unfold ParseBlockHeader.
  destruct (ReadFields_encoded isLast code len pre rest e sk) as [buf ->];
    [lia | lia |].
  cbn [nth br_r]. rewrite int_small by lia.
  assert (Hlast : negb (Z.b2z isLast =? 0) = isLast) by (destruct isLast; reflexivity).
  rewrite Hlast.
  repeat (match goal with
          | |- context [code =? ?k] =>
              destruct (Z.eqb_spec code k) as [? | ?]; [eauto |]
          end).
  destruct (Z.leb_spec 7 code) as [_ | Hlt]; [| lia].
  destruct (Z.leb_spec code 126) as [_ | Hgt]; [| lia].
  cbn [andb]. eauto.
Qed.

Section SkipFacts.

Context (D : BodyDecoders).

(** Skipping through a reader that cannot seek. *)
Lemma Skip_sequential (fuel : nat) (block : Block D) :
  seeking (r block) = NotSeeker ->
  0 <= Length (Header block) < 2 ^ 63 ->
  (Z.to_nat (Length (Header block)) < fuel)%nat ->
  let m := (Z.to_nat (Length (Header block)) `min` avail (r block))%nat in
  Skip D fuel block
  = Some ((if (avail (r block) <? Z.to_nat (Length (Header block)))%nat
           then Some (endErr (r block)) else None),
          mkBlock (set_pos (r block) (pos (r block) + m)) (Header block) (Body block)).
Proof.
  intros Hs HL Hf. cbn zeta. unfold Skip. rewrite Hs.
  unfold int64. rewrite int_small by lia.
  rewrite CopyN_result by lia. reflexivity.
Qed.

(** Skipping through a reader that can seek and whose [Seek] works. *)
Lemma Skip_seekable (fuel : nat) (block : Block D) :
  seeking (r block) = Seeker None ->
  0 <= Length (Header block) < 2 ^ 63 ->
  Skip D fuel block
  = Some (None,
          mkBlock (set_pos (r block) (pos (r block) + Z.to_nat (Length (Header block))))
            (Header block) (Body block)).
Proof.
  intros Hs HL. unfold Skip, Seek. rewrite Hs.
  unfold int64. rewrite int_small by lia.
  destruct (Z.ltb_spec (Z.of_nat (pos (r block)) + Length (Header block)) 0); [lia |].
  do 4 f_equal. lia.
Qed.

(** Skipping through a reader whose [Seek] faults. *)
Lemma Skip_seek_fault (fuel : nat) (block : Block D) (e : error) :
  seeking (r block) = Seeker (Some e) ->
  Skip D fuel block
  = Some (Some e, mkBlock (r block) (Header block) (Body block)).
Proof. intros Hs. unfold Skip, Seek. rewrite Hs. reflexivity. Qed.

(** C3: a block opened at a header that declares a body of L bytes, on a
    store that holds at least L bytes after the header: Skip succeeds both on
    the seekable reader and on the sequential one, and both leave the cursor
    at header start + 4 + L. *)
Theorem C3_skip_paths_agree (isLast : bool) (code len : Z)
    (pre rest : list byte) (e : error) (fuel : nat) :
  0 <= code <= 126 -> 0 <= len <= 16777215 ->
  (Z.to_nat len <= length rest)%nat -> (Z.to_nat len < fuel)%nat ->
  let store := pre ++ encodeHeader isLast code len ++ rest in
  exists (bs bq bs' bq' : Block D),
    fst (fst (NewBlock D (mkReader store (length pre) e (Seeker None)))) = Ok bs
    /\ fst (fst (NewBlock D (mkReader store (length pre) e NotSeeker))) = Ok bq
    /\ Length (Header bs) = len /\ Length (Header bq) = len
    /\ Skip D fuel bs = Some (None, bs')
    /\ Skip D fuel bq = Some (None, bq')
    /\ pos (r bs') = (length pre + 4 + Z.to_nat len)%nat
    /\ pos (r bq') = (length pre + 4 + Z.to_nat len)%nat.
Proof.
  intros Hc Hl Hrest Hf store. unfold NewBlock.
  destruct (ParseBlockHeader_encoded_ok isLast code len pre rest e (Seeker None) Hc Hl)
    as (ts & lgs & Hs).
  destruct (ParseBlockHeader_encoded_ok isLast code len pre rest e NotSeeker Hc Hl)
    as (tq & lgq & Hq).
  fold store in Hs, Hq. rewrite Hs, Hq. cbn [fst].
  do 4 eexists. split; [reflexivity |]. split; [reflexivity |].
  cbn [Header Length r]. split; [reflexivity |]. split; [reflexivity |].
  rewrite Skip_seekable by (cbn [r Header Length seeking]; (reflexivity || lia)).
  rewrite Skip_sequential by (cbn [r Header Length seeking]; (reflexivity || lia)).
  cbn [r Header Length pos endErr].
  assert (Hav : avail (mkReader store (length pre + 4) e NotSeeker)
                = length rest).
  { unfold avail, store. cbn [data pos]. rewrite !length_app.
    change (length (encodeHeader isLast code len)) with 4%nat. lia. }
  rewrite Hav.
  replace (length rest <? Z.to_nat len)%nat with false
    by (symmetry; apply Nat.ltb_ge; lia).
  split; [reflexivity |]. split; [reflexivity |].
  cbn [r pos set_pos]. split; lia.
Qed.

(** C6, as the code has it: when the store holds fewer bytes after the header
    than the declared length L, Skip on a sequential reader fails with the
    error the reader reports at its end (io.EOF when the store simply ends);
    on a seekable reader Skip fails only if Seek itself faults, and otherwise
    succeeds, leaving the cursor L bytes further, past the end of the store. *)
Theorem C6_skip_on_short_store (fuel : nat) (block : Block D) :
  0 <= Length (Header block) < 2 ^ 63 ->
  (avail (r block) < Z.to_nat (Length (Header block)))%nat ->
  (Z.to_nat (Length (Header block)) < fuel)%nat ->
  exists block',
    Header block' = Header block /\ Body block' = Body block
    /\ match seeking (r block) with
       | NotSeeker =>
           Skip D fuel block = Some (Some (endErr (r block)), block')
           /\ pos (r block') = (pos (r block) + avail (r block))%nat
       | Seeker (Some e) =>
           Skip D fuel block = Some (Some e, block')
           /\ pos (r block') = pos (r block)
       | Seeker None =>
           Skip D fuel block = Some (None, block')
           /\ pos (r block')
              = (pos (r block) + Z.to_nat (Length (Header block)))%nat
       end.
Proof.
  intros HL Hshort Hf.
  destruct (seeking (r block)) as [| [e |]] eqn:Hs.
  - rewrite Skip_sequential by assumption.
    replace (avail (r block) <? Z.to_nat (Length (Header block)))%nat with true
      by (symmetry; apply Nat.ltb_lt; lia).
    eexists. split_and!; [| | reflexivity |]; try reflexivity.
    cbn [r pos set_pos]. lia.
  - rewrite (Skip_seek_fault fuel block e Hs).
    eexists. split_and!; [| | reflexivity |]; reflexivity.
  - rewrite Skip_seekable by assumption.
    eexists. split_and!; [| | reflexivity |]; reflexivity.
Qed.

End SkipFacts.

(** ** Headers, dispatch and the taxonomy *)

(** Every header the decoder produces carries a 24-bit length and one of the
    eight declared types. *)
Lemma ParseBlockHeader_ok_inv (rd rd' : Reader) (h : BlockHeader) (lg : list string) :
  ParseBlockHeader rd = (Ok h, rd', lg) ->
  0 <= Length h <= 16777215 /\ In (BlockType_ h) declaredTypes.
Proof.
  intros H. unfold ParseBlockHeader in H.
  destruct (ReadFields _ _) as [[fields | e] br'] eqn:HF; [| discriminate].
  apply ReadFields_three in HF as (f0 & f1 & f2 & -> & H0 & H1 & H2).
  cbn [nth] in H. rewrite int_small in H by lia.
  unfold declaredTypes.
  repeat (match type of H with
          | context [f1 =? ?k] =>
              destruct (Z.eqb_spec f1 k) as [? | ?];
              [inversion H; subst; cbn [Length BlockType_ In]; split; [lia | tauto] |]
          end).
  destruct ((7 <=? f1) && (f1 <=? 126)); [| discriminate].
  inversion H; subst; cbn [Length BlockType_ In]; split; [lia | tauto].
Qed.

Lemma dispatch_declared :
  Forall (fun t => dispatch t <> CaseDefault) declaredTypes.
Proof. unfold declaredTypes. repeat constructor; discriminate. Qed.

(** The default case is taken by the values that are not declared types, and
    only by them. *)
Lemma dispatch_default_iff (t : BlockType) :
  dispatch t = CaseDefault <-> ~ In t declaredTypes.
Proof.
  unfold dispatch, declaredTypes.
  repeat (match goal with
          | |- context [t =? ?k] =>
              destruct (Z.eqb_spec t k) as [-> | ?];
              [split; [discriminate | intros Hn; exfalso; apply Hn; cbn [In]; tauto] |]
          end).
  split; [| reflexivity]. intros _. cbn [In]. intuition congruence.
Qed.

(** C7: each of the eight declared types selects its own case of the switch
    in Parse, the eight cases are pairwise distinct, none of them is the
    default (which is taken exactly by the undeclared values), and the type of
    a header produced by ParseBlockHeader never selects the default. *)
Theorem C7_dispatch_covers_declared_types :
  map dispatch declaredTypes
  = [CaseStreamInfo; CasePadding; CaseApplication; CaseSeekTable;
     CaseVorbisComment; CaseCueSheet; CasePicture; CaseReserved]
  /\ NoDup (map dispatch declaredTypes)
  /\ Forall (fun t => dispatch t <> CaseDefault) declaredTypes
  /\ (forall t, dispatch t = CaseDefault <-> ~ In t declaredTypes)
  /\ forall rd h rd' lg,
       ParseBlockHeader rd = (Ok h, rd', lg) ->
       dispatch (BlockType_ h) <> CaseDefault.
Proof.
  split; [reflexivity |]. split.
  - cbn. repeat (constructor; [cbn [In]; rewrite ?list_elem_of_In; cbn [In]; intuition discriminate |]).
    constructor.
  - split; [exact dispatch_declared |]. split; [exact dispatch_default_iff |].
    intros rd h rd' lg H. apply ParseBlockHeader_ok_inv in H as [_ Hin].
    pose proof dispatch_declared as HF. rewrite Forall_forall in HF.
    apply HF. apply list_elem_of_In. exact Hin.
Qed.

(** C8: the eight block types are the eight powers of two below 256, all
    distinct; TypeAll is the or of all of them but Padding, TypeAllStrict the
    or of all of them but Reserved; so a declared type is in TypeAll exactly
    when it is not Padding, and in TypeAllStrict exactly when it is not
    Reserved. *)
Theorem C8_types_are_bits_and_masks :
  declaredTypes = map (fun k => 2 ^ Z.of_nat k) (seq 0 8)
  /\ NoDup declaredTypes
  /\ TypeAll
     = Z.lor TypeStreamInfo (Z.lor TypeApplication (Z.lor TypeSeekTable
         (Z.lor TypeVorbisComment (Z.lor TypeCueSheet
           (Z.lor TypePicture TypeReserved)))))
  /\ TypeAllStrict
     = Z.lor TypeStreamInfo (Z.lor TypePadding (Z.lor TypeApplication
         (Z.lor TypeSeekTable (Z.lor TypeVorbisComment
           (Z.lor TypeCueSheet TypePicture)))))
  /\ TypeAll = 253 /\ TypeAllStrict = 127
  /\ Forall (fun t => (Z.land TypeAll t = t <-> t <> TypePadding)
                      /\ (Z.land TypeAll t = 0 <-> t = TypePadding)
                      /\ (Z.land TypeAllStrict t = t <-> t <> TypeReserved)
                      /\ (Z.land TypeAllStrict t = 0 <-> t = TypeReserved))
       declaredTypes.
Proof.
  split; [reflexivity |]. split.
  - unfold declaredTypes.
    repeat (constructor; [rewrite list_elem_of_In; cbn; intuition discriminate |]).
    constructor.
  - split; [reflexivity |]. split; [reflexivity |].
    split; [reflexivity |]. split; [reflexivity |].
    unfold declaredTypes. repeat constructor; cbn; try discriminate; try reflexivity;
      intros; try discriminate; congruence.
Qed.

(** A value that is none of the seven named types takes the fallback. *)
Lemma BlockType_String_other (t : BlockType) :
  ~ In t [TypeStreamInfo; TypePadding; TypeApplication; TypeSeekTable;
          TypeVorbisComment; TypeCueSheet; TypePicture] ->
  BlockType_String t = ("unknown block type " ++ fmt_d (uint8 t))%string.
Proof.
  intros Hn.
  assert (Hne : forall k, In k [TypeStreamInfo; TypePadding; TypeApplication;
                                TypeSeekTable; TypeVorbisComment; TypeCueSheet;
                                TypePicture] -> k <> t)
    by (intros k Hk ->; contradiction).
  unfold BlockType_String, blockTypeName.
  rewrite !lookup_insert_ne by (apply Hne; cbn [In]; tauto).
  rewrite lookup_empty. reflexivity.
Qed.

(** C10: String is defined on every value: the seven concrete types render as
    their names; TypeReserved, which has no name, renders as "unknown block
    type 128"; and every other value N of the type renders as "unknown block
    type N". *)
Theorem C10_string_total :
  map BlockType_String
    [TypeStreamInfo; TypePadding; TypeApplication; TypeSeekTable;
     TypeVorbisComment; TypeCueSheet; TypePicture]
  = ["stream info"; "padding"; "application"; "seek table"; "vorbis comment";
     "cue sheet"; "picture"]%string
  /\ TypeReserved = 128
  /\ BlockType_String TypeReserved = "unknown block type 128"%string
  /\ forall t : BlockType,
       0 <= t <= 255 ->
       ~ In t [TypeStreamInfo; TypePadding; TypeApplication; TypeSeekTable;
               TypeVorbisComment; TypeCueSheet; TypePicture] ->
       BlockType_String t = ("unknown block type " ++ fmt_d t)%string.
Proof.
  split; [vm_compute; reflexivity |]. split; [reflexivity |].
  split; [vm_compute; reflexivity |].
  intros t Ht Hn. rewrite (BlockType_String_other t Hn).
  rewrite uint8_small by lia. reflexivity.
Qed.

Section HeaderFacts.

Context (D : BodyDecoders).
Variable room : nat -> nat.

Lemma Skip_header (fuel : nat) (block : Block D) :
  forall err block', Skip D fuel block = Some (err, block') ->
    Header block' = Header block.
Proof.
  intros err block' H. unfold Skip in H.
  destruct (seeking (r block)).
  - destruct (CopyN _ _ _) as [[[w e] rd'] |]; [| discriminate].
    inversion H; reflexivity.
  - destruct (Seek _ _ _) as [[w e] rd']. inversion H; reflexivity.
Qed.

(** C9: a header produced by ParseBlockHeader has a length between 0 and
    16,777,215; and a block that holds it still holds the very same header
    after Parse and after Skip, whatever they return. *)
Theorem C9_header_range_and_stability (rd rd' : Reader) (h : BlockHeader)
    (lg : list string) :
  ParseBlockHeader rd = (Ok h, rd', lg) ->
  0 <= Length h <= 16777215
  /\ forall (fuel : nat) (block : Block D),
       Header block = h ->
       (forall err block', Parse D room fuel block = Some (err, block') ->
                           Header block' = h)
       /\ (forall err block', Skip D fuel block = Some (err, block') ->
                              Header block' = h).
Proof.
  intros H. apply ParseBlockHeader_ok_inv in H as [HL _].
  split; [exact HL |]. intros fuel block <-. split.
  - intros err block' HP. apply Parse_outcome in HP as [HH _]. exact HH.
  - intros err block' HS. eapply Skip_header. exact HS.
Qed.

End HeaderFacts.

(** ** The theorems on the sample stores *)

Lemma C2_parse_reads_within_length_witness :
  exists err block',
    Parse greedyDecoders noRoom 4 firstOfTwo = Some (err, block')
    /\ (pos (r firstOfTwo) <= pos (r block')
        <= pos (r firstOfTwo) + Z.to_nat (Length (Header firstOfTwo)))%nat
    /\ data (r block') = data (r firstOfTwo)
    /\ forall rd2,
         pos rd2 = pos (r firstOfTwo) -> endErr rd2 = endErr (r firstOfTwo) ->
         take (pos (r firstOfTwo) + Z.to_nat (Length (Header firstOfTwo))) (data rd2)
         = take (pos (r firstOfTwo) + Z.to_nat (Length (Header firstOfTwo)))
             (data (r firstOfTwo)) ->
         exists block2',
           Parse greedyDecoders noRoom 4
             (mkBlock rd2 (Header firstOfTwo) (Body firstOfTwo))
           = Some (err, block2')
           /\ Body block2' = Body block' /\ pos (r block2') = pos (r block').
Proof.
  apply (C2_parse_reads_within_length greedyDecoders noRoom 4 firstOfTwo);
    cbn [firstOfTwo Header Length]; lia.
Defined.

Lemma C3_skip_paths_agree_witness :
  exists (bs bq bs' bq' : Block greedyDecoders),
    fst (fst (NewBlock greedyDecoders
                (mkReader ([] ++ encodeHeader false 0 3 ++ [x01; x02; x03; x04])
                   (length (@nil byte)) EOF (Seeker None)))) = Ok bs
    /\ fst (fst (NewBlock greedyDecoders
                   (mkReader ([] ++ encodeHeader false 0 3 ++ [x01; x02; x03; x04])
                      (length (@nil byte)) EOF NotSeeker))) = Ok bq
    /\ Length (Header bs) = 3 /\ Length (Header bq) = 3
    /\ Skip greedyDecoders 4 bs = Some (None, bs')
    /\ Skip greedyDecoders 4 bq = Some (None, bq')
    /\ pos (r bs') = (length (@nil byte) + 4 + Z.to_nat 3)%nat
    /\ pos (r bq') = (length (@nil byte) + 4 + Z.to_nat 3)%nat.
Proof.
  apply (C3_skip_paths_agree greedyDecoders false 0 3 [] [x01; x02; x03; x04] EOF 4);
    cbn [length]; lia.
Defined.

(** C6, as stated, fails on a seekable reader: the block opened on
    [shortStore] declares five body bytes, the store holds one, and Skip
    returns no error, leaving the cursor at offset 9 of a store of 5 bytes. *)
Lemma C6_seek_past_end_succeeds :
  fst (fst (NewBlock greedyDecoders (mkReader shortStore 0 EOF (Seeker None))))
  = Ok (shortBlock (Seeker None))
  /\ Length (Header (shortBlock (Seeker None))) = 5
  /\ avail (r (shortBlock (Seeker None))) = 1%nat
  /\ Skip greedyDecoders 6 (shortBlock (Seeker None))
     = Some (None,
             mkBlock (mkReader shortStore 9 EOF (Seeker None))
               (mkBlockHeader false TypeStreamInfo 5) NoBody)
  /\ length shortStore = 5%nat.
Proof. vm_compute. repeat split. Qed.

Lemma C6_skip_on_short_store_witness :
  exists block',
    Header block' = Header (shortBlock NotSeeker)
    /\ Body block' = Body (shortBlock NotSeeker)
    /\ Skip greedyDecoders 6 (shortBlock NotSeeker) = Some (Some EOF, block')
    /\ pos (r block') = 5%nat.
Proof.
  apply (C6_skip_on_short_store greedyDecoders 6 (shortBlock NotSeeker)).
  - cbn [shortBlock Header Length]. lia.
  - change (avail (r (shortBlock NotSeeker))) with 1%nat.
    cbn [shortBlock Header Length]. lia.
  - cbn [shortBlock Header Length]. lia.
Defined.

Lemma C7_dispatch_covers_declared_types_witness :
  dispatch (BlockType_ (mkBlockHeader false TypeStreamInfo 34)) <> CaseDefault.
Proof.
  apply (proj2 (proj2 (proj2 (proj2 C7_dispatch_covers_declared_types)))
           (mkReader (encodeHeader false 0 34) 0 EOF NotSeeker)
           (mkBlockHeader false TypeStreamInfo 34)
           (mkReader (encodeHeader false 0 34) 4 EOF NotSeeker) []).
  vm_compute. reflexivity.
Defined.

Lemma C9_header_range_and_stability_witness :
  0 <= Length (mkBlockHeader false TypeStreamInfo 34) <= 16777215
  /\ forall (fuel : nat) (block : Block greedyDecoders),
       Header block = mkBlockHeader false TypeStreamInfo 34 ->
       (forall err block', Parse greedyDecoders noRoom fuel block = Some (err, block') ->
                           Header block' = mkBlockHeader false TypeStreamInfo 34)
       /\ (forall err block', Skip greedyDecoders fuel block = Some (err, block') ->
                              Header block' = mkBlockHeader false TypeStreamInfo 34).
Proof.
  apply (C9_header_range_and_stability greedyDecoders noRoom
           (mkReader (encodeHeader false 0 34) 0 EOF NotSeeker)
           (mkReader (encodeHeader false 0 34) 4 EOF NotSeeker)
           (mkBlockHeader false TypeStreamInfo 34) []).
  vm_compute. reflexivity.
Defined.

Lemma C10_string_total_witness :
  BlockType_String 3 = ("unknown block type " ++ fmt_d 3)%string.
Proof.
  apply (proj2 (proj2 (proj2 C10_string_total)) 3); [lia |].
  cbn [In]. vm_compute. intuition discriminate.
Defined.

(** * Further properties *)

(** ** The header decoder on an arbitrary reader *)

(** A reader that has a byte left, seen as a store split at its cursor. *)
Lemma reader_split (rd : Reader) (b : byte) (tl : list byte) :
  drop (pos rd) (data rd) = b :: tl ->
  rd = mkReader (take (pos rd) (data rd) ++ b :: tl)
         (length (take (pos rd) (data rd))) (endErr rd) (seeking rd).
Proof.
  intros Hd.
  assert (Hlt : (pos rd < length (data rd))%nat).
  { destruct (Nat.lt_ge_cases (pos rd) (length (data rd))) as [H | H]; [exact H |].
    rewrite drop_ge in Hd by lia. discriminate. }
  rewrite <- Hd, take_drop, length_take.
  replace (pos rd `min` length (data rd))%nat with (pos rd) by lia.
  destruct rd; reflexivity.
Qed.

Lemma avail_drop (rd : Reader) : avail rd = length (drop (pos rd) (data rd)).
Proof. unfold avail. rewrite length_drop. reflexivity. Qed.

(** With nothing buffered and nothing left in the store, a read of bits fails
    with the reader's error and moves nothing. *)
Lemma ReadBits_end (k : nat) (vl buf : Z) (rd : Reader) :
  drop (pos rd) (data rd) = [] ->
  ReadBits (S k) vl (mkBitReader rd buf 0)
  = (Err (endErr rd), mkBitReader rd buf 0).
Proof.
  intros Hd. cbn [ReadBits fill br_n br_r br_buf]. unfold Read.
  rewrite Hd. reflexivity.
Qed.

Lemma drop_app_end {A : Type} (pre : list A) :
  drop (length pre) pre = [].
Proof. apply drop_ge. lia. Qed.

(** The extractor on a store that ends within the header: it fails with the
    reader's error, having consumed the bytes that were there. *)
Lemma ReadFields_short (pre bs : list byte) (e : error) (sk : Seeking) :
  (length bs < 4)%nat ->
  exists buf,
    ReadFields [1%nat; 7%nat; 24%nat]
      (NewReader (mkReader (pre ++ bs) (length pre) e sk))
    = (Err e, mkBitReader (mkReader (pre ++ bs) (length pre + length bs) e sk) buf 0).
Proof.
  intros Hlen. unfold NewReader.
  destruct bs as [| b0 [| b1 [| b2 [| b3 tl]]]]; [| | | | cbn [length] in Hlen; lia].
  - (* no byte *)
    eexists. cbn [ReadFields]. rewrite ReadBits_end
      by (cbn [pos data]; rewrite app_nil_r; apply drop_app_end).
    cbn [endErr length]. rewrite Nat.add_0_r. reflexivity.
  - (* one byte *)
    eexists. cbn [ReadFields].
    rewrite ReadBits_refill, ReadBits_buffered by lia. cbv beta iota.
    rewrite ReadBits_buffered by lia. cbv beta iota. cbn [Nat.sub].
    rewrite ReadBits_end
      by (cbn [pos data]; apply drop_app_end).
    cbn [endErr]. rewrite length_app. reflexivity.
  - (* two bytes *)
    eexists. cbn [ReadFields].
    rewrite ReadBits_refill, ReadBits_buffered by lia. cbv beta iota.
    rewrite ReadBits_buffered by lia. cbv beta iota. cbn [Nat.sub].
    change 24%nat with (8 + 16)%nat. rewrite ReadBits_add.
    replace (pre ++ [b0; b1]) with ((pre ++ [b0]) ++ b1 :: [])
      by (rewrite <- app_assoc; reflexivity).
    rewrite ReadBits_byte. cbv beta iota.
    rewrite ReadBits_end by (cbn [pos data]; apply drop_app_end).
    cbn [endErr]. rewrite !length_app. cbn [length].
    replace (length pre + 1 + 1)%nat with (length pre + 2)%nat by lia.
    reflexivity.
  - (* three bytes *)
    eexists. cbn [ReadFields].
    rewrite ReadBits_refill, ReadBits_buffered by lia. cbv beta iota.
    rewrite ReadBits_buffered by lia. cbv beta iota. cbn [Nat.sub].
    change 24%nat with (8 + (8 + 8))%nat. rewrite ReadBits_add.
    replace (pre ++ [b0; b1; b2]) with ((pre ++ [b0]) ++ b1 :: [b2])
      by (rewrite <- app_assoc; reflexivity).
    rewrite ReadBits_byte. cbv beta iota. rewrite ReadBits_add.
    replace ((pre ++ [b0]) ++ [b1; b2]) with (((pre ++ [b0]) ++ [b1]) ++ b2 :: [])
      by (rewrite <- !app_assoc; reflexivity).
    rewrite ReadBits_byte. cbv beta iota.
    rewrite ReadBits_end by (cbn [pos data]; apply drop_app_end).
    cbn [endErr]. rewrite !length_app. cbn [length].
    replace (length pre + 1 + 1 + 1)%nat with (length pre + 3)%nat by lia.
    reflexivity.
Qed.

(** The extractor on any reader that has four bytes left. *)
Lemma ReadFields_full (rd : Reader) (b0 b1 b2 b3 : byte) (rest : list byte) :
  drop (pos rd) (data rd) = b0 :: b1 :: b2 :: b3 :: rest ->
  ReadFields [1%nat; 7%nat; 24%nat] (NewReader rd)
  = (Ok [byte_val b0 / 128; byte_val b0 mod 128;
         byte_val b1 * 65536 + byte_val b2 * 256 + byte_val b3],
     mkBitReader (set_pos rd (pos rd + 4)) (byte_val b3) 0).
Proof.
  intros Hd. pose proof (reader_split rd _ _ Hd) as Hrd.
  assert (Hlt : (pos rd <= length (data rd))%nat).
  { destruct (Nat.le_gt_cases (pos rd) (length (data rd))) as [H | H]; [exact H |].
    rewrite drop_ge in Hd by lia. discriminate. }
  rewrite Hrd at 1.
  change (b0 :: b1 :: b2 :: b3 :: rest) with ([b0; b1; b2; b3] ++ rest).
  rewrite ReadFields_header. do 2 f_equal.
  unfold set_pos. rewrite length_take.
  replace (pos rd `min` length (data rd))%nat with (pos rd) by lia.
  f_equal. change ([b0; b1; b2; b3] ++ rest) with (b0 :: b1 :: b2 :: b3 :: rest).
  rewrite <- Hd. apply take_drop.
Qed.

(** The extractor on any reader that has fewer than four bytes left. *)
Lemma ReadFields_starved (rd : Reader) :
  (avail rd < 4)%nat ->
  exists buf,
    ReadFields [1%nat; 7%nat; 24%nat] (NewReader rd)
    = (Err (endErr rd), mkBitReader (set_pos rd (pos rd + avail rd)) buf 0).
Proof.
  intros Hav. rewrite avail_drop in *.
  destruct (drop (pos rd) (data rd)) as [| b tl] eqn:Hd.
  - exists 0. unfold NewReader. cbn [ReadFields]. rewrite ReadBits_end by exact Hd.
    cbn [length]. rewrite Nat.add_0_r, set_pos_same. reflexivity.
  - pose proof (reader_split rd _ _ Hd) as Hrd.
    assert (Hlt : (pos rd <= length (data rd))%nat).
    { destruct (Nat.le_gt_cases (pos rd) (length (data rd))) as [H | H]; [exact H |].
      rewrite drop_ge in Hd by lia. discriminate. }
    destruct (ReadFields_short (take (pos rd) (data rd)) (b :: tl)
                (endErr rd) (seeking rd) Hav) as [buf HF].
    exists buf. rewrite Hrd at 1. rewrite HF. do 2 f_equal.
    unfold set_pos. rewrite length_take.
    replace (pos rd `min` length (data rd))%nat with (pos rd) by lia.
    f_equal. rewrite <- Hd. apply take_drop.
Qed.

Lemma byte_val_inj (a b : byte) : byte_val a = byte_val b -> a = b.
Proof.
  unfold byte_val. intros H. apply N2Z.inj in H.
  pose proof (Byte.of_to_N a) as Ha. rewrite H, Byte.of_to_N in Ha.
  congruence.
Qed.

Lemma four_bytes (rd : Reader) :
  (4 <= avail rd)%nat ->
  exists b0 b1 b2 b3 rest, drop (pos rd) (data rd) = b0 :: b1 :: b2 :: b3 :: rest.
Proof.
  rewrite avail_drop.
  destruct (drop (pos rd) (data rd)) as [| b0 [| b1 [| b2 [| b3 rest]]]];
    cbn [length]; intros H; try lia. eauto 6.
Qed.

(** Splits on the tests the decoder makes on the type code [c]. *)
Ltac code_cases c :=
  repeat (match goal with
          | |- context [c =? ?k] => destruct (Z.eqb_spec c k) as [? | ?]
          | H : context [c =? ?k] |- _ => destruct (Z.eqb_spec c k) as [? | ?]
          | |- context [?k <=? c] => destruct (Z.leb_spec k c) as [? | ?]
          | H : context [?k <=? c] |- _ => destruct (Z.leb_spec k c) as [? | ?]
          | |- context [c <=? ?k] => destruct (Z.leb_spec c k) as [? | ?]
          | H : context [c <=? ?k] |- _ => destruct (Z.leb_spec c k) as [? | ?]
          end; cbn [andb] in *).



(** X2: when ParseBlockHeader succeeds, four bytes were left and exactly those
    were consumed; IsLast is the top bit of the first byte, Length is the
    big-endian value of the next three, the type code (the low seven bits of
    the first byte) is not 127, the type is the one of the table for codes up
    to 6 and TypeReserved above, and a message is logged exactly for the
    codes above 6. *)
Theorem ParseBlockHeader_success_shape (rd rd' : Reader) (h : BlockHeader)
    (lg : list string) :
  ParseBlockHeader rd = (Ok h, rd', lg) ->
  exists b0 b1 b2 b3 rest,
    drop (pos rd) (data rd) = b0 :: b1 :: b2 :: b3 :: rest
    /\ rd' = set_pos rd (pos rd + 4)
    /\ IsLast h = (128 <=? byte_val b0)
    /\ Length h = byte_val b1 * 65536 + byte_val b2 * 256 + byte_val b3
    /\ byte_val b0 mod 128 <> 127
    /\ (byte_val b0 mod 128 <= 6 ->
        BlockType_ h = typeOfCode (byte_val b0 mod 128) /\ lg = [])
    /\ (7 <= byte_val b0 mod 128 ->
        BlockType_ h = TypeReserved
        /\ lg = [reservedNotice (byte_val b0 mod 128)]).
Proof.
  intros H.
  destruct (Nat.lt_ge_cases (avail rd) 4) as [Hlt | Hge].
  { unfold ParseBlockHeader in H.
    destruct (ReadFields_starved rd Hlt) as [buf HF]. rewrite HF in H.
    discriminate. }
  destruct (four_bytes rd Hge) as (b0 & b1 & b2 & b3 & rest & Hd).
  exists b0, b1, b2, b3, rest. split; [exact Hd |].
  unfold ParseBlockHeader in H. rewrite (ReadFields_full rd _ _ _ _ _ Hd) in H.
  cbn [nth br_r] in H.
  pose proof (byte_val_range b0) as R0. pose proof (byte_val_range b1) as R1.
  pose proof (byte_val_range b2) as R2. pose proof (byte_val_range b3) as R3.
  rewrite int_small in H by lia.
  assert (Hil : negb (byte_val b0 / 128 =? 0) = (128 <=? byte_val b0)).
  { destruct (Z.eqb_spec (byte_val b0 / 128) 0), (Z.leb_spec 128 (byte_val b0));
      cbn [negb]; try reflexivity; Z.div_mod_to_equations; lia. }
  rewrite Hil in H. clear Hil.
  assert (Rc : 0 <= byte_val b0 mod 128 < 128) by (apply Z.mod_pos_bound; lia).
  set (c := byte_val b0 mod 128) in *.
  code_cases c; try discriminate; try lia;
    inversion H; subst rd' h lg; cbn [IsLast Length BlockType_];
    (split_and!; [reflexivity | reflexivity | reflexivity | lia
                 | intros; try lia | intros; try lia]);
    try (split; [| reflexivity]);
    try (split; reflexivity);
    match goal with
    | E : c = _ |- _ => rewrite E; reflexivity
    end.
Qed.

Lemma ParseBlockHeader_success_shape_witness :
  exists b0 b1 b2 b3 rest,
    drop (pos (mkReader (encodeHeader true 4 57) 0 EOF NotSeeker))
      (data (mkReader (encodeHeader true 4 57) 0 EOF NotSeeker))
    = b0 :: b1 :: b2 :: b3 :: rest
    /\ mkReader (encodeHeader true 4 57) 4 EOF NotSeeker
       = set_pos (mkReader (encodeHeader true 4 57) 0 EOF NotSeeker)
           (pos (mkReader (encodeHeader true 4 57) 0 EOF NotSeeker) + 4)
    /\ IsLast (mkBlockHeader true TypeVorbisComment 57) = (128 <=? byte_val b0)
    /\ Length (mkBlockHeader true TypeVorbisComment 57)
       = byte_val b1 * 65536 + byte_val b2 * 256 + byte_val b3
    /\ byte_val b0 mod 128 <> 127
    /\ (byte_val b0 mod 128 <= 6 ->
        BlockType_ (mkBlockHeader true TypeVorbisComment 57)
        = typeOfCode (byte_val b0 mod 128) /\ @nil string = [])
    /\ (7 <= byte_val b0 mod 128 ->
        BlockType_ (mkBlockHeader true TypeVorbisComment 57) = TypeReserved
        /\ @nil string = [reservedNotice (byte_val b0 mod 128)]).
Proof.
  apply (ParseBlockHeader_success_shape
           (mkReader (encodeHeader true 4 57) 0 EOF NotSeeker)
           (mkReader (encodeHeader true 4 57) 4 EOF NotSeeker)
           (mkBlockHeader true TypeVorbisComment 57) []).
  vm_compute. reflexivity.
Defined.



(** X4: ParseBlockHeader succeeds exactly when at least four bytes are left
    and the low seven bits of the first one are not all set. *)
Theorem ParseBlockHeader_succeeds_iff (rd : Reader) :
  (exists h rd' lg, ParseBlockHeader rd = (Ok h, rd', lg))
  <-> ((4 <= avail rd)%nat
       /\ exists b0, data rd !! pos rd = Some b0 /\ byte_val b0 mod 128 <> 127).
Proof.
  destruct (Nat.lt_ge_cases (avail rd) 4) as [Hlt | Hge].
  { unfold ParseBlockHeader.
    destruct (ReadFields_starved rd Hlt) as [buf ->].
    split; [intros (h & rd' & lg & H); discriminate | intros [Hge _]; lia]. }
  destruct (four_bytes rd Hge) as (b0 & b1 & b2 & b3 & rest & Hd).
  assert (Hb0 : data rd !! pos rd = Some b0).
  { rewrite <- (Nat.add_0_r (pos rd)), <- lookup_drop, Hd. reflexivity. }
  unfold ParseBlockHeader. rewrite (ReadFields_full rd _ _ _ _ _ Hd).
  cbn [nth br_r].
  pose proof (byte_val_range b0) as R0.
  assert (Rc : 0 <= byte_val b0 mod 128 < 128) by (apply Z.mod_pos_bound; lia).
  set (c := byte_val b0 mod 128) in *.
  split.
  - intros (h & rd' & lg & H). split; [exact Hge |].
    exists b0. split; [exact Hb0 |]. fold c. intros Hc.
    rewrite Hc in H. cbn in H. discriminate.
  - intros (_ & b0' & Hb0' & Hc).
    assert (b0' = b0) as -> by congruence. fold c in Hc.
    code_cases c; try lia; eauto.
Qed.

(** A header of a type other than Reserved, read back as bytes: the first
    byte is the flag above the type code, and the code is the position of the
    type's bit. *)
Lemma header_known_bytes (rd rd' : Reader) (h : BlockHeader) (lg : list string) :
  ParseBlockHeader rd = (Ok h, rd', lg) ->
  BlockType_ h <> TypeReserved ->
  exists b0 b1 b2 b3 rest,
    drop (pos rd) (data rd) = b0 :: b1 :: b2 :: b3 :: rest
    /\ byte_val b0 = 128 * Z.b2z (IsLast h) + Z.log2 (BlockType_ h)
    /\ Length h = byte_val b1 * 65536 + byte_val b2 * 256 + byte_val b3.
Proof.
  intros H Hres.
  destruct (Nat.lt_ge_cases (avail rd) 4) as [Hlt | Hge].
  { unfold ParseBlockHeader in H.
    destruct (ReadFields_starved rd Hlt) as [buf HF]. rewrite HF in H.
    discriminate. }
  destruct (four_bytes rd Hge) as (b0 & b1 & b2 & b3 & rest & Hd).
  exists b0, b1, b2, b3, rest. split; [exact Hd |].
  unfold ParseBlockHeader in H. rewrite (ReadFields_full rd _ _ _ _ _ Hd) in H.
  cbn [nth br_r] in H.
  pose proof (byte_val_range b0) as R0. pose proof (byte_val_range b1) as R1.
  pose proof (byte_val_range b2) as R2. pose proof (byte_val_range b3) as R3.
  rewrite int_small in H by lia.
  assert (Rc : 0 <= byte_val b0 mod 128 < 128) by (apply Z.mod_pos_bound; lia).
  assert (Hdiv : byte_val b0 = 128 * (byte_val b0 / 128) + byte_val b0 mod 128)
    by (apply Z.div_mod; lia).
  assert (Rq : 0 <= byte_val b0 / 128 <= 1) by (Z.div_mod_to_equations; lia).
  assert (L0 : Z.log2 TypeStreamInfo = 0) by reflexivity.
  assert (L1 : Z.log2 TypePadding = 1) by reflexivity.
  assert (L2 : Z.log2 TypeApplication = 2) by reflexivity.
  assert (L3 : Z.log2 TypeSeekTable = 3) by reflexivity.
  assert (L4 : Z.log2 TypeVorbisComment = 4) by reflexivity.
  assert (L5 : Z.log2 TypeCueSheet = 5) by reflexivity.
  assert (L6 : Z.log2 TypePicture = 6) by reflexivity.
  set (c := byte_val b0 mod 128) in *.
  code_cases c; try discriminate; inversion H; subst h rd' lg;
    cbn [IsLast Length BlockType_] in *; try congruence;
    (split; [| reflexivity]);
    destruct (Z.eqb_spec (byte_val b0 / 128) 0) as [Hq | Hq]; cbn [negb Z.b2z];
    match goal with
    | E : c = _ |- _ => rewrite E in Hdiv
    end;
    rewrite Hdiv at 1; rewrite ?L0, ?L1, ?L2, ?L3, ?L4, ?L5, ?L6; lia.
Qed.

(** X5: a header of a type other than Reserved determines the four bytes it
    was decoded from: two readers on which ParseBlockHeader returns the same
    such header have the same four bytes at their cursors. *)
Theorem ParseBlockHeader_known_injective (rd1 rd1' rd2 rd2' : Reader)
    (h : BlockHeader) (lg1 lg2 : list string) :
  ParseBlockHeader rd1 = (Ok h, rd1', lg1) ->
  ParseBlockHeader rd2 = (Ok h, rd2', lg2) ->
  BlockType_ h <> TypeReserved ->
  take 4 (drop (pos rd1) (data rd1)) = take 4 (drop (pos rd2) (data rd2)).
Proof.
  intros H1 H2 Hres.
  destruct (header_known_bytes _ _ _ _ H1 Hres)
    as (b0 & b1 & b2 & b3 & rest1 & -> & Hb0 & Hlen1).
  destruct (header_known_bytes _ _ _ _ H2 Hres)
    as (c0 & c1 & c2 & c3 & rest2 & -> & Hc0 & Hlen2).
  cbn [take]. rewrite !take_0.
  pose proof (byte_val_range b1) as B1. pose proof (byte_val_range b2) as B2.
  pose proof (byte_val_range b3) as B3. pose proof (byte_val_range c1) as C1.
  pose proof (byte_val_range c2) as C2. pose proof (byte_val_range c3) as C3.
  assert (E0 : byte_val b0 = byte_val c0) by congruence.
  assert (E1 : byte_val b1 = byte_val c1) by lia.
  assert (E2 : byte_val b2 = byte_val c2) by lia.
  assert (E3 : byte_val b3 = byte_val c3) by lia.
  apply byte_val_inj in E0, E1, E2, E3. congruence.
Qed.

Lemma ParseBlockHeader_known_injective_witness :
  take 4 (drop (pos (mkReader (encodeHeader false 0 34) 0 EOF NotSeeker))
            (data (mkReader (encodeHeader false 0 34) 0 EOF NotSeeker)))
  = take 4 (drop (pos (mkReader (x00 :: x00 :: x00 :: encodeHeader false 0 34 ++ [x07])
                            3 EOF (Seeker None)))
              (data (mkReader (x00 :: x00 :: x00 :: encodeHeader false 0 34 ++ [x07])
                      3 EOF (Seeker None)))).
Proof.
  apply (ParseBlockHeader_known_injective
           (mkReader (encodeHeader false 0 34) 0 EOF NotSeeker)
           (mkReader (encodeHeader false 0 34) 4 EOF NotSeeker)
           (mkReader (x00 :: x00 :: x00 :: encodeHeader false 0 34 ++ [x07]) 3 EOF (Seeker None))
           (mkReader (x00 :: x00 :: x00 :: encodeHeader false 0 34 ++ [x07]) 7 EOF (Seeker None))
           (mkBlockHeader false TypeStreamInfo 34) [] []);
    vm_compute; (reflexivity || discriminate).
Defined.

(** ** More on Parse *)

Lemma take_length_take {A : Type} (k : nat) (X : list A) :
  take k X = take (length (take k X)) X.
Proof.
  rewrite length_take.
  destruct (Nat.le_gt_cases k (length X)) as [H | H].
  - replace (k `min` length X)%nat with k by lia. reflexivity.
  - replace (k `min` length X)%nat with (length X) by lia.
    rewrite !take_ge by lia. reflexivity.
Qed.

Section ParseMore.

Context (D : BodyDecoders).
Variable room : nat -> nat.

(** What [ioutil.ReadAll] does under a limit: it gathers the bytes available
    up to the limit, and reports the reader's own error only when the store
    gives out first and that error is not [EOF]. *)
Lemma ReadAll_result (fuel : nat) :
  forall (l : LimitedReader) (buf : list byte),
    0 <= N l -> (Z.to_nat (N l) < fuel)%nat ->
    let m := (Z.to_nat (N l) `min` avail (R l))%nat in
    ReadAll room fuel l buf
    = Some (buf ++ take (Z.to_nat (N l)) (drop (pos (R l)) (data (R l))),
            (if (avail (R l) <? Z.to_nat (N l))%nat
             then match endErr (R l) with EOF => None | e => Some e end
             else None),
            {| R := set_pos (R l) (pos (R l) + m); N := N l - Z.of_nat m |}).
Proof.
  induction fuel as [| fuel IH]; intros l buf HN Hf; [lia |].
  cbn zeta. cbn [ReadAll].
  assert (Hroom : (0 < MinRead + room (length buf))%nat) by (unfold MinRead; lia).
  destruct (LimitedReader_Read l _) as [[bs er] l1] eqn:HR.
  pose proof (LimitedReader_Read_err _ _ _ _ _ HR Hroom) as (E0 & E1 & E2).
  pose proof (LimitedReader_Read_inv _ _ _ _ _ HR) as (Hbs & HR1 & HN1 & Hle & _ & _).
  set (X := drop (pos (R l)) (data (R l))) in *.
  assert (HX : length X = avail (R l)) by (unfold X; rewrite avail_drop; reflexivity).
  destruct (Z.eq_dec (N l) 0) as [Hz | Hnz].
  - (* the limit is reached *)
    rewrite E0 by lia.
    destruct bs as [| b0 bs0]; [| cbn [length] in Hle; lia].
    cbn [length] in *.
    replace (Z.to_nat (N l)) with 0%nat by lia. rewrite take_0.
    replace (0 `min` avail (R l))%nat with 0%nat by lia.
    replace (avail (R l) <? 0)%nat with false by (symmetry; apply Nat.ltb_ge; lia).
    do 2 f_equal. destruct l1 as [R1 N1]. cbn [R N] in *. rewrite HR1, HN1.
    reflexivity.
  - destruct bs as [| b bs'].
    + (* the store gave out *)
      destruct E1 as [-> Hav]; [lia | reflexivity |].
      assert (HXnil : X = []) by (destruct X; [reflexivity | cbn [length] in HX; lia]).
      rewrite HXnil, take_nil, Hav.
      replace (Z.to_nat (N l) `min` 0)%nat with 0%nat by lia.
      replace (0 <? Z.to_nat (N l))%nat with true
        by (symmetry; apply Nat.ltb_lt; lia).
      cbn [length] in *. destruct l1 as [R1 N1]. cbn [R N] in *.
      rewrite HR1, HN1. destruct (endErr (R l)); reflexivity.
    + (* some bytes were read *)
      rewrite E2 by (lia || discriminate).
      set (bs := b :: bs') in *. set (len := length bs) in *.
      assert (Hpos : (0 < len)%nat) by (unfold len, bs; cbn [length]; lia).
      assert (Hlen : (len <= avail (R l))%nat).
      { unfold len. rewrite Hbs, length_take. lia. }
      rewrite IH by (rewrite HN1; lia).
      assert (Hav1 : avail (R l1) = (avail (R l) - len)%nat).
      { rewrite HR1. unfold avail, set_pos. cbn [data pos]. lia. }
      rewrite Hav1, HN1, HR1. cbn [pos set_pos data endErr seeking].
      assert (Hm : (Z.to_nat (N l - Z.of_nat len) `min` (avail (R l) - len)
                    = Z.to_nat (N l) `min` avail (R l) - len)%nat) by lia.
      rewrite Hm.
      assert (Hb : ((avail (R l) - len <? Z.to_nat (N l - Z.of_nat len))
                    = (avail (R l) <? Z.to_nat (N l)))%nat).
      { destruct (Nat.ltb_spec (avail (R l)) (Z.to_nat (N l)));
          [apply Nat.ltb_lt | apply Nat.ltb_ge]; lia. }
      rewrite Hb.
      assert (Hbytes : (buf ++ bs) ++ take (Z.to_nat (N l - Z.of_nat len))
                                        (drop (pos (R l) + len) (data (R l)))
                       = buf ++ take (Z.to_nat (N l)) X).
      { rewrite <- app_assoc. f_equal.
        replace (drop (pos (R l) + len) (data (R l))) with (drop len X)
          by (unfold X; rewrite drop_drop; reflexivity).
        assert (Hbs' : bs = take len X)
          by (unfold len; rewrite Hbs; apply take_length_take).
        rewrite Hbs' at 1. rewrite take_take_drop. f_equal. lia. }
      rewrite Hbytes. f_equal. f_equal.
      unfold set_pos. cbn [data pos endErr seeking]. f_equal; [f_equal |]; lia.
Qed.

(** X6: on a block whose type is none of the eight declared ones, Parse
    returns the unsupported-type error for that type and leaves the block,
    reader included, as it was: nothing is read. *)
Theorem Parse_undeclared_type (fuel : nat) (block : Block D) :
  ~ In (BlockType_ (Header block)) declaredTypes ->
  Parse D room fuel block
  = Some (Some (ErrUnsupportedType (BlockType_ (Header block))), block).
Proof.
  intros Hn. apply dispatch_default_iff in Hn. unfold Parse. rewrite Hn.
  reflexivity.
Qed.

(** Parse on a block of type Reserved, spelled out. *)
Lemma Parse_reserved_eq (fuel : nat) (block : Block D) :
  BlockType_ (Header block) = TypeReserved ->
  0 <= Length (Header block) < 2 ^ 63 ->
  (Z.to_nat (Length (Header block)) < fuel)%nat ->
  Parse D room fuel block
  = Some ((if (avail (r block) <? Z.to_nat (Length (Header block)))%nat
           then match endErr (r block) with EOF => None | e => Some e end
           else None),
          mkBlock
            (set_pos (r block)
               (pos (r block)
                + Z.to_nat (Length (Header block)) `min` avail (r block)))
            (Header block)
            (RawBody (take (Z.to_nat (Length (Header block)))
                        (drop (pos (r block)) (data (r block)))))).
Proof.
  intros Ht HL Hf. unfold Parse. rewrite Ht.
  change (dispatch TypeReserved) with CaseReserved. cbv beta iota.
  unfold int64. rewrite int_small by lia.
  rewrite ReadAll_result by (cbn [LimitReader N]; lia).
  cbn [LimitReader R N app]. reflexivity.
Qed.

(** X7: on a block of type Reserved whose store holds the declared Length
    bytes, Parse returns no error, keeps exactly those bytes as the body, and
    leaves the cursor right after them. *)
Theorem Parse_reserved_keeps_body (fuel : nat) (block : Block D) :
  BlockType_ (Header block) = TypeReserved ->
  0 <= Length (Header block) < 2 ^ 63 ->
  (Z.to_nat (Length (Header block)) < fuel)%nat ->
  (Z.to_nat (Length (Header block)) <= avail (r block))%nat ->
  exists body,
    Parse D room fuel block
    = Some (None,
            mkBlock (set_pos (r block)
                       (pos (r block) + Z.to_nat (Length (Header block))))
              (Header block) (RawBody body))
    /\ body = take (Z.to_nat (Length (Header block)))
                (drop (pos (r block)) (data (r block)))
    /\ length body = Z.to_nat (Length (Header block)).
Proof.
  intros Ht HL Hf Hav. eexists. split; [| split; [reflexivity |]].
  - rewrite Parse_reserved_eq by assumption.
    replace (avail (r block) <? Z.to_nat (Length (Header block)))%nat with false
      by (symmetry; apply Nat.ltb_ge; lia).
    replace (Z.to_nat (Length (Header block)) `min` avail (r block))%nat
      with (Z.to_nat (Length (Header block))) by lia.
    reflexivity.
  - rewrite length_take, <- avail_drop. lia.
Qed.

(** X8: on a block of type Reserved whose store holds fewer bytes than the
    declared Length, Parse keeps the bytes that are there as the body and
    leaves the cursor at the end of the store; it returns no error when the
    store simply ends (EOF), and the reader's error otherwise. *)
Theorem Parse_reserved_truncated (fuel : nat) (block : Block D) :
  BlockType_ (Header block) = TypeReserved ->
  0 <= Length (Header block) < 2 ^ 63 ->
  (Z.to_nat (Length (Header block)) < fuel)%nat ->
  (avail (r block) < Z.to_nat (Length (Header block)))%nat ->
  Parse D room fuel block
  = Some (match endErr (r block) with EOF => None | e => Some e end,
          mkBlock (set_pos (r block) (pos (r block) + avail (r block)))
            (Header block)
            (RawBody (drop (pos (r block)) (data (r block))))).
Proof.
  intros Ht HL Hf Hav. rewrite Parse_reserved_eq by assumption.
  replace (avail (r block) <? Z.to_nat (Length (Header block)))%nat with true
    by (symmetry; apply Nat.ltb_lt; lia).
  replace (Z.to_nat (Length (Header block)) `min` avail (r block))%nat
    with (avail (r block)) by lia.
  rewrite take_ge by (rewrite <- avail_drop; lia). reflexivity.
Qed.

(** X11: when no body decoder calls Read, Parse on a block of any of the seven
    types that have a decoder returns with the reader exactly where it was,
    whatever the declared Length: Parse itself neither reads nor skips the
    body. *)
Theorem Parse_without_reads (fuel : nat) (block : Block D) :
  allReturnAtOnce D ->
  In (BlockType_ (Header block))
    [TypeStreamInfo; TypePadding; TypeApplication; TypeSeekTable;
     TypeVorbisComment; TypeCueSheet; TypePicture] ->
  exists err body,
    Parse D room fuel block
    = Some (err, mkBlock (r block) (Header block) body).
Proof.
  intros (H1 & H2 & H3 & H4 & H5 & H6 & H7) Hin. unfold Parse, parseWith.
  destruct H1 as [[x1 e1] E1], H2 as [e2 E2], H3 as [[x3 e3] E3],
    H4 as [[x4 e4] E4], H5 as [[x5 e5] E5], H6 as [[x6 e6] E6],
    H7 as [[x7 e7] E7].
  rewrite E1, E2, E3, E4, E5, E6, E7. cbn [In] in Hin.
  destruct Hin as [<- | [<- | [<- | [<- | [<- | [<- | [<- | []]]]]]]];
    cbn [dispatch exec LimitReader R]; eauto.
Qed.

End ParseMore.

Lemma Parse_undeclared_type_witness :
  Parse lazyDecoders noRoom 0
    (mkBlock (mkReader twoBlocks 4 EOF NotSeeker) (mkBlockHeader false TypeAll 3) NoBody)
  = Some (Some (ErrUnsupportedType
                  (BlockType_ (Header (mkBlock (D := lazyDecoders)
                     (mkReader twoBlocks 4 EOF NotSeeker)
                     (mkBlockHeader false TypeAll 3) NoBody)))),
          mkBlock (mkReader twoBlocks 4 EOF NotSeeker) (mkBlockHeader false TypeAll 3) NoBody).
Proof.
  apply (Parse_undeclared_type lazyDecoders noRoom 0
           (mkBlock (mkReader twoBlocks 4 EOF NotSeeker)
              (mkBlockHeader false TypeAll 3) NoBody)).
  vm_compute. intuition discriminate.
Defined.

Lemma Parse_reserved_keeps_body_witness :
  exists body,
    Parse greedyDecoders noRoom 4
      (mkBlock (mkReader twoBlocks 4 EOF NotSeeker)
         (mkBlockHeader false TypeReserved 3) NoBody)
    = Some (None,
            mkBlock (set_pos (mkReader twoBlocks 4 EOF NotSeeker) (4 + Z.to_nat 3))
              (mkBlockHeader false TypeReserved 3) (RawBody body))
    /\ body = take (Z.to_nat 3) (drop 4 twoBlocks)
    /\ length body = Z.to_nat 3.
Proof.
  apply (Parse_reserved_keeps_body greedyDecoders noRoom 4
           (mkBlock (mkReader twoBlocks 4 EOF NotSeeker)
              (mkBlockHeader false TypeReserved 3) NoBody)).
  - reflexivity.
  - cbn [Header Length]. lia.
  - cbn [Header Length]. lia.
  - cbn [Header Length r]. vm_compute. lia.
Defined.

Lemma Parse_reserved_truncated_witness :
  Parse greedyDecoders noRoom 6
    (mkBlock (mkReader shortStore 4 EOF NotSeeker)
       (mkBlockHeader false TypeReserved 5) NoBody)
  = Some (None,
          mkBlock (set_pos (mkReader shortStore 4 EOF NotSeeker) (4 + 1))
            (mkBlockHeader false TypeReserved 5) (RawBody (drop 4 shortStore))).
Proof.
  apply (Parse_reserved_truncated greedyDecoders noRoom 6
           (mkBlock (mkReader shortStore 4 EOF NotSeeker)
              (mkBlockHeader false TypeReserved 5) NoBody)).
  - reflexivity.
  - cbn [Header Length]. lia.
  - cbn [Header Length]. lia.
  - cbn [Header Length r]. vm_compute. lia.
Defined.

Lemma Parse_without_reads_witness :
  exists err body,
    Parse lazyDecoders noRoom 0
      (mkBlock (mkReader twoBlocks 4 EOF NotSeeker)
         (mkBlockHeader false TypeStreamInfo 3) NoBody)
    = Some (err, mkBlock (mkReader twoBlocks 4 EOF NotSeeker)
                   (mkBlockHeader false TypeStreamInfo 3) body).
Proof.
  apply (Parse_without_reads lazyDecoders noRoom 0
           (mkBlock (mkReader twoBlocks 4 EOF NotSeeker)
              (mkBlockHeader false TypeStreamInfo 3) NoBody)).
  - unfold allReturnAtOnce, returnsAtOnce. cbn. split_and!; eexists; reflexivity.
  - cbn. tauto.
Defined.

(** ** More on Skip, and ParseBlock *)

(** ParseBlockHeader only moves the cursor, by at most four bytes, and by
    exactly four when it succeeds. *)
Lemma ParseBlockHeader_moves (rd rd' : Reader) (res : result BlockHeader)
    (lg : list string) :
  ParseBlockHeader rd = (res, rd', lg) ->
  data rd' = data rd /\ endErr rd' = endErr rd /\ seeking rd' = seeking rd
  /\ (pos rd <= pos rd' <= pos rd + 4)%nat
  /\ (forall h, res = Ok h -> rd' = set_pos rd (pos rd + 4)).
Proof.
  intros H. unfold ParseBlockHeader in H.
  destruct (Nat.lt_ge_cases (avail rd) 4) as [Hlt | Hge].
  { destruct (ReadFields_starved rd Hlt) as [buf HF]. rewrite HF in H.
    inversion H; subst. cbn [br_r set_pos data endErr seeking pos].
    split_and!; try reflexivity; try lia. intros h Hh. discriminate. }
  destruct (four_bytes rd Hge) as (b0 & b1 & b2 & b3 & rest & Hd).
  rewrite (ReadFields_full rd _ _ _ _ _ Hd) in H. cbn [nth br_r] in H.
  set (c := byte_val b0 mod 128) in *.
  code_cases c; inversion H; subst; cbn [set_pos data endErr seeking pos];
    split_and!; try reflexivity; try lia; intros; reflexivity.
Qed.

(** A header with a type code other than 127, decoded: the type is the
    table's for the codes up to 6 and Reserved above, where the code is
    logged. *)
Lemma ParseBlockHeader_encoded_eq (isLast : bool) (code len : Z)
    (pre rest : list byte) (e : error) (sk : Seeking) :
  0 <= code <= 126 -> 0 <= len <= 16777215 ->
  ParseBlockHeader
    (mkReader (pre ++ encodeHeader isLast code len ++ rest) (length pre) e sk)
  = (Ok {| IsLast := isLast;
           BlockType_ := if code <=? 6 then typeOfCode code else TypeReserved;
           Length := len |},
     mkReader (pre ++ encodeHeader isLast code len ++ rest) (length pre + 4) e sk,
     if code <=? 6 then [] else [reservedNotice code]).
Proof.
  intros Hc Hl. unfold ParseBlockHeader.
  destruct (ReadFields_encoded isLast code len pre rest e sk) as [buf ->];
    [lia | lia |].
  cbn [nth br_r]. rewrite int_small by lia.
  assert (Hlast : negb (Z.b2z isLast =? 0) = isLast) by (destruct isLast; reflexivity).
  rewrite Hlast.
  code_cases code; try lia; subst; reflexivity.
Qed.

Section SkipMore.

Context (D : BodyDecoders).
Variable room : nat -> nat.

(** X9: nothing guards against consuming a body twice.  After Parse has
    returned, Skip on the same block succeeds again and moves the cursor a
    further Length bytes from wherever Parse left it: on a seekable reader
    always, on a sequential one when that many bytes are left. *)
Theorem Skip_after_Parse (fuel fuel' : nat) (block block' : Block D)
    (err : option error) :
  Parse D room fuel block = Some (err, block') ->
  0 <= Length (Header block) < 2 ^ 63 ->
  seeking (r block) = Seeker None
  \/ (seeking (r block) = NotSeeker
      /\ (Z.to_nat (Length (Header block)) <= avail (r block'))%nat
      /\ (Z.to_nat (Length (Header block)) < fuel')%nat) ->
  exists block'',
    Skip D fuel' block' = Some (None, block'')
    /\ pos (r block'')
       = (pos (r block') + Z.to_nat (Length (Header block)))%nat
    /\ (pos (r block) + Z.to_nat (Length (Header block)) <= pos (r block''))%nat.
Proof.
  intros HP HL Hkind.
  destruct (Parse_outcome D room fuel block err block' HP) as (HH & l' & Hadv & Hr).
  apply advanced_within in Hadv as (Hpos & _ & _ & Hsk).
  rewrite <- Hr in Hpos, Hsk.
  destruct Hkind as [Hs | (Hs & Hav & Hf)].
  - rewrite Skip_seekable by (rewrite ?HH; congruence || assumption).
    eexists. split; [reflexivity |]. cbn [r pos set_pos]. rewrite HH. lia.
  - rewrite Skip_sequential by (rewrite ?HH; congruence || assumption).
    rewrite HH.
    replace (avail (r block') <? Z.to_nat (Length (Header block)))%nat with false
      by (symmetry; apply Nat.ltb_ge; lia).
    eexists. split; [reflexivity |]. cbn [r pos set_pos]. lia.
Qed.

(** X10: Skip on a block whose Length is zero or negative.  On a sequential
    reader it returns no error and moves nothing, whatever the state of the
    store; on a seekable reader it returns the fault of Seek if there is one,
    and otherwise moves the cursor back by the length, or fails and moves
    nothing when that would be before the start. *)
Theorem Skip_nonpositive_length (fuel : nat) (block : Block D) :
  - 2 ^ 63 <= Length (Header block) <= 0 ->
  (0 < fuel)%nat ->
  Skip D fuel block
  = match seeking (r block) with
    | NotSeeker => Some (None, mkBlock (r block) (Header block) (Body block))
    | Seeker (Some e) =>
        Some (Some e, mkBlock (r block) (Header block) (Body block))
    | Seeker None =>
        if Z.of_nat (pos (r block)) + Length (Header block) <? 0
        then Some (Some ErrNegativePosition,
                   mkBlock (r block) (Header block) (Body block))
        else Some (None,
                   mkBlock (set_pos (r block)
                              (Z.to_nat (Z.of_nat (pos (r block))
                                         + Length (Header block))))
                     (Header block) (Body block))
    end.
Proof.
  intros HL Hf. unfold Skip, Seek, CopyN, int64. rewrite int_small by lia.
  destruct (seeking (r block)) as [| [e |]].
  - destruct fuel as [| fuel]; [lia |]. cbn [Copy].
    unfold LimitedReader_Read, LimitReader. cbn [N R].
    destruct (Z.leb_spec (Length (Header block)) 0) as [_ | ?]; [| lia].
    cbn [length]. change (Z.of_nat 0) with 0. rewrite Z.add_0_l. cbn [R].
    destruct (Z.eqb_spec 0 (Length (Header block))) as [Hz | Hz]; [reflexivity |].
    destruct (Z.ltb_spec 0 (Length (Header block))); [lia | reflexivity].
  - reflexivity.
  - destruct (Z.ltb_spec (Z.of_nat (pos (r block)) + Length (Header block)) 0);
      reflexivity.
Qed.

(** X13: given fuel for the longest body a header can declare, ParseBlock
    returns; it only moves the cursor forward, over an unchanged store, and
    when it returns a block the cursor stands between 4 and 4 + Length bytes
    past where it started. *)
Theorem ParseBlock_consumption (fuel : nat) (rd : Reader) :
  (Z.to_nat 16777215 < fuel)%nat ->
  exists res rd' lg,
    ParseBlock D room fuel rd = Some (res, rd', lg)
    /\ data rd' = data rd
    /\ (pos rd <= pos rd' <= pos rd + 4 + Z.to_nat 16777215)%nat
    /\ forall block,
         res = Ok block ->
         r block = rd'
         /\ 0 <= Length (Header block) <= 16777215
         /\ (pos rd + 4 <= pos rd'
             <= pos rd + 4 + Z.to_nat (Length (Header block)))%nat.
Proof.
  intros Hf. unfold ParseBlock, NewBlock.
  destruct (ParseBlockHeader rd) as [[[h | e] rd1] lg] eqn:HP.
  - destruct (ParseBlockHeader_moves _ _ _ _ HP) as (Hd & _ & _ & _ & Hfour).
    specialize (Hfour h eq_refl).
    destruct (ParseBlockHeader_ok_inv _ _ _ _ HP) as [HL _].
    set (block := mkBlock rd1 h NoBody).
    destruct (Parse_total D room fuel block) as (err & block' & HPa).
    { cbn [block Header]. unfold int64. rewrite int_small by lia. lia. }
    rewrite HPa.
    destruct (Parse_outcome D room fuel block err block' HPa) as (HH & l' & Hadv & Hr).
    apply advanced_within in Hadv as (Hpos & Hdata & _).
    rewrite <- Hr in Hpos, Hdata. cbn [block r Header] in Hpos, Hdata, HH.
    unfold int64 in Hpos. rewrite int_small in Hpos by lia.
    rewrite Hfour in Hpos, Hdata. cbn [set_pos pos data] in Hpos, Hdata.
    destruct err as [e |].
    + do 3 eexists. split; [reflexivity |]. split; [exact Hdata |].
      split; [lia |]. intros b Hb. discriminate.
    + do 3 eexists. split; [reflexivity |]. split; [exact Hdata |].
      split; [lia |]. intros b Hb. inversion Hb; subst b.
      rewrite HH. split_and!; try reflexivity; lia.
  - destruct (ParseBlockHeader_moves _ _ _ _ HP) as (Hd & _ & _ & Hpos & _).
    do 3 eexists. split; [reflexivity |]. split; [exact Hd |].
    split; [lia |]. intros b Hb. discriminate.
Qed.

(** X12: ParseBlock on a block with a reserved type code (7 to 126) whose body
    is all there returns a block of type Reserved that carries the flag and
    the length of the header and, as its body, the very bytes of the body;
    the reader is left on the byte after the body, and the code is logged. *)
Theorem ParseBlock_reserved (isLast : bool) (code : Z)
    (pre body rest : list byte) (e : error) (sk : Seeking) (fuel : nat) :
  7 <= code <= 126 ->
  Z.of_nat (length body) <= 16777215 ->
  (length body < fuel)%nat ->
  let store :=
    pre ++ encodeHeader isLast code (Z.of_nat (length body)) ++ body ++ rest in
  let after := mkReader store (length pre + 4 + length body) e sk in
  ParseBlock D room fuel (mkReader store (length pre) e sk)
  = Some (Ok (mkBlock after
                (mkBlockHeader isLast TypeReserved (Z.of_nat (length body)))
                (RawBody body)),
          after, [reservedNotice code]).
Proof.
  intros Hc Hl Hf store after. unfold ParseBlock, NewBlock. unfold store at 1.
  rewrite ParseBlockHeader_encoded_eq by lia.
  destruct (Z.leb_spec code 6) as [? | _]; [lia |]. fold store.
  rewrite Parse_reserved_eq
    by (cbn [Header BlockType_ Length r]; (reflexivity || lia)).
  cbn [Header Length r pos data endErr]. rewrite Nat2Z.id.
  assert (Hdrop : drop (length pre + 4) store = body ++ rest).
  { unfold store. rewrite drop_app_add'; [| reflexivity].
    change 4%nat with (length (encodeHeader isLast code (Z.of_nat (length body)))).
    rewrite drop_app_length. reflexivity. }
  assert (Hav : avail (mkReader store (length pre + 4) e sk)
                = (length body + length rest)%nat).
  { rewrite avail_drop. cbn [pos data]. rewrite Hdrop, length_app. reflexivity. }
  rewrite Hav, Hdrop, take_app_length.
  replace (length body + length rest <? length body)%nat with false
    by (symmetry; apply Nat.ltb_ge; lia).
  replace (length body `min` (length body + length rest))%nat with (length body) by lia.
  reflexivity.
Qed.

(** X14: skipping a block whose body is all there leaves the reader on the
    next header: opening a block there yields the header that was packed
    after the body, on a seekable reader as on a sequential one. *)
Theorem Skip_then_NewBlock (isLast1 isLast2 : bool) (code1 code2 len2 : Z)
    (pre body rest : list byte) (e : error) (sk : Seeking) (fuel : nat) :
  0 <= code1 <= 126 -> 0 <= code2 <= 126 ->
  Z.of_nat (length body) <= 16777215 -> 0 <= len2 <= 16777215 ->
  (length body < fuel)%nat ->
  sk = NotSeeker \/ sk = Seeker None ->
  let store :=
    pre ++ encodeHeader isLast1 code1 (Z.of_nat (length body)) ++ body
    ++ encodeHeader isLast2 code2 len2 ++ rest in
  exists (b1 b1' b2 : Block D),
    fst (fst (NewBlock D (mkReader store (length pre) e sk))) = Ok b1
    /\ Skip D fuel b1 = Some (None, b1')
    /\ fst (fst (NewBlock D (r b1'))) = Ok b2
    /\ IsLast (Header b2) = isLast2 /\ Length (Header b2) = len2
    /\ BlockType_ (Header b2)
       = (if code2 <=? 6 then typeOfCode code2 else TypeReserved)
    /\ pos (r b2) = (length pre + 4 + length body + 4)%nat.
Proof.
  intros Hc1 Hc2 Hl1 Hl2 Hf Hsk store.
  unfold NewBlock at 1. unfold store at 1.
  rewrite ParseBlockHeader_encoded_eq by lia. fold store. cbn [fst].
  eexists. eexists. eexists. split; [reflexivity |].
  set (pre2 := pre ++ encodeHeader isLast1 code1 (Z.of_nat (length body)) ++ body).
  assert (Hstore : store = pre2 ++ encodeHeader isLast2 code2 len2 ++ rest).
  { unfold store, pre2. rewrite <- !app_assoc. reflexivity. }
  assert (Hlen2 : length pre2 = (length pre + 4 + length body)%nat).
  { unfold pre2. rewrite !length_app.
    change (length (encodeHeader isLast1 code1 (Z.of_nat (length body)))) with 4%nat.
    lia. }
  assert (Hav : avail (mkReader store (length pre + 4) e sk)
                = (length body + 4 + length rest)%nat).
  { unfold avail. cbn [data pos]. rewrite Hstore, !length_app, Hlen2.
    change (length (encodeHeader isLast2 code2 len2)) with 4%nat. lia. }
  assert (Hnext : ParseBlockHeader (mkReader store (length pre + 4 + length body) e sk)
                  = (Ok {| IsLast := isLast2;
                           BlockType_ := if code2 <=? 6 then typeOfCode code2
                                         else TypeReserved;
                           Length := len2 |},
                     mkReader store (length pre + 4 + length body + 4) e sk,
                     if code2 <=? 6 then [] else [reservedNotice code2])).
  { rewrite Hstore, <- Hlen2. apply ParseBlockHeader_encoded_eq; lia. }
  destruct Hsk as [-> | ->].
  - rewrite Skip_sequential
      by (cbn [r Header Length seeking]; (reflexivity || lia)).
    cbn [r Header Length pos]. rewrite Hav, Nat2Z.id.
    replace (length body + 4 + length rest <? length body)%nat with false
      by (symmetry; apply Nat.ltb_ge; lia).
    replace (length body `min` (length body + 4 + length rest))%nat
      with (length body) by lia.
    split; [reflexivity |]. cbn [r]. unfold set_pos.
    cbn [data pos endErr seeking].
    unfold NewBlock. rewrite Hnext. cbn [fst].
    split; [reflexivity |]. cbn [Header IsLast Length BlockType_ r pos].
    split_and!; reflexivity.
  - rewrite Skip_seekable
      by (cbn [r Header Length seeking]; (reflexivity || lia)).
    cbn [r Header Length pos]. rewrite Nat2Z.id.
    split; [reflexivity |]. cbn [r]. unfold set_pos.
    cbn [data pos endErr seeking].
    unfold NewBlock. rewrite Hnext. cbn [fst].
    split; [reflexivity |]. cbn [Header IsLast Length BlockType_ r pos].
    split_and!; reflexivity.
Qed.

End SkipMore.

Lemma Skip_after_Parse_witness :
  exists block'',
    Skip greedyDecoders 4
      (mkBlock (mkReader twoBlocks 7 EOF NotSeeker)
         (mkBlockHeader false TypeStreamInfo 3) (StreamInfoBody greedyDecoders [x01; x02; x03]))
    = Some (None, block'')
    /\ pos (r block'')
       = (pos (r (mkBlock (D := greedyDecoders) (mkReader twoBlocks 7 EOF NotSeeker)
                    (mkBlockHeader false TypeStreamInfo 3)
                    (StreamInfoBody greedyDecoders [x01; x02; x03])))
          + Z.to_nat (Length (Header firstOfTwo)))%nat
    /\ (pos (r firstOfTwo) + Z.to_nat (Length (Header firstOfTwo))
        <= pos (r block''))%nat.
Proof.
  apply (Skip_after_Parse greedyDecoders noRoom 4 4 firstOfTwo
           (mkBlock (mkReader twoBlocks 7 EOF NotSeeker)
              (mkBlockHeader false TypeStreamInfo 3)
              (StreamInfoBody greedyDecoders [x01; x02; x03]))
           None).
  - vm_compute. reflexivity.
  - cbn [firstOfTwo Header Length]. lia.
  - right. split; [reflexivity |]. cbn [firstOfTwo Header Length r].
    change (avail (mkReader twoBlocks 7 EOF NotSeeker)) with 6%nat. lia.
Defined.

Lemma Skip_nonpositive_length_witness :
  Skip greedyDecoders 1
    (mkBlock (mkReader shortStore 5 (ErrDevice "read error") NotSeeker)
       (mkBlockHeader true TypePadding 0) NoBody)
  = Some (None,
          mkBlock (mkReader shortStore 5 (ErrDevice "read error") NotSeeker)
            (mkBlockHeader true TypePadding 0) NoBody).
Proof.
  apply (Skip_nonpositive_length greedyDecoders 1
           (mkBlock (mkReader shortStore 5 (ErrDevice "read error") NotSeeker)
              (mkBlockHeader true TypePadding 0) NoBody));
    cbn [Header Length]; lia.
Defined.

Lemma ParseBlock_consumption_witness :
  exists res rd' lg,
    ParseBlock greedyDecoders noRoom (S (Z.to_nat 16777215))
      (mkReader twoBlocks 0 EOF NotSeeker) = Some (res, rd', lg)
    /\ data rd' = data (mkReader twoBlocks 0 EOF NotSeeker)
    /\ (pos (mkReader twoBlocks 0 EOF NotSeeker) <= pos rd'
        <= pos (mkReader twoBlocks 0 EOF NotSeeker) + 4 + Z.to_nat 16777215)%nat
    /\ forall block,
         res = Ok block ->
         r block = rd'
         /\ 0 <= Length (Header block) <= 16777215
         /\ (pos (mkReader twoBlocks 0 EOF NotSeeker) + 4 <= pos rd'
             <= pos (mkReader twoBlocks 0 EOF NotSeeker) + 4
                + Z.to_nat (Length (Header block)))%nat.
Proof.
  apply (ParseBlock_consumption greedyDecoders noRoom (S (Z.to_nat 16777215))
           (mkReader twoBlocks 0 EOF NotSeeker)).
  apply Nat.lt_succ_diag_r.
Defined.

Lemma ParseBlock_reserved_witness :
  ParseBlock greedyDecoders noRoom 3
    (mkReader ([] ++ encodeHeader false 42 (Z.of_nat (length [x01; x02]))
               ++ [x01; x02] ++ [x09]) (length (@nil byte)) EOF NotSeeker)
  = Some (Ok (mkBlock
                (mkReader ([] ++ encodeHeader false 42 (Z.of_nat (length [x01; x02]))
                           ++ [x01; x02] ++ [x09])
                   (length (@nil byte) + 4 + length [x01; x02]) EOF NotSeeker)
                (mkBlockHeader false TypeReserved (Z.of_nat (length [x01; x02])))
                (RawBody [x01; x02])),
          mkReader ([] ++ encodeHeader false 42 (Z.of_nat (length [x01; x02]))
                    ++ [x01; x02] ++ [x09])
            (length (@nil byte) + 4 + length [x01; x02]) EOF NotSeeker,
          [reservedNotice 42]).
Proof.
  apply (ParseBlock_reserved greedyDecoders noRoom false 42 [] [x01; x02] [x09]
           EOF NotSeeker 3); cbn [length]; lia.
Defined.

Lemma Skip_then_NewBlock_witness :
  exists (b1 b1' b2 : Block greedyDecoders),
    fst (fst (NewBlock greedyDecoders
                (mkReader ([] ++ encodeHeader false 0 (Z.of_nat (length [x01; x02; x03]))
                           ++ [x01; x02; x03] ++ encodeHeader true 1 2 ++ [x00; x00])
                   (length (@nil byte)) EOF (Seeker None)))) = Ok b1
    /\ Skip greedyDecoders 4 b1 = Some (None, b1')
    /\ fst (fst (NewBlock greedyDecoders (r b1'))) = Ok b2
    /\ IsLast (Header b2) = true /\ Length (Header b2) = 2
    /\ BlockType_ (Header b2) = (if 1 <=? 6 then typeOfCode 1 else TypeReserved)
    /\ pos (r b2) = (length (@nil byte) + 4 + length [x01; x02; x03] + 4)%nat.
Proof.
  apply (Skip_then_NewBlock greedyDecoders false true 0 1 2 [] [x01; x02; x03]
           [x00; x00] EOF (Seeker None) 4); cbn [length]; (lia || (right; reflexivity)).
Defined.

(** ** More on the names *)

(** The 256 strings String gives for the values 0 to 255 are pairwise
    distinct. *)
Lemma BlockType_String_NoDup :
  NoDup (map (fun n => BlockType_String (Z.of_nat n)) (seq 0 256)).
Proof.
  apply (bool_decide_unpack _). vm_compute. reflexivity.
Qed.

(** X15: no two values of the type have the same rendering: for s and t
    between 0 and 255, String s = String t only if s = t. *)
Theorem BlockType_String_injective (s t : BlockType) :
  0 <= s <= 255 -> 0 <= t <= 255 ->
  BlockType_String s = BlockType_String t -> s = t.
Proof.
  intros Hs Ht Heq.
  set (l := map (fun n => BlockType_String (Z.of_nat n)) (seq 0 256)).
  assert (Hl : forall z, 0 <= z <= 255 -> l !! Z.to_nat z = Some (BlockType_String z)).
  { intros z Hz. unfold l. rewrite list_lookup_fmap, lookup_seq_lt by lia.
    cbn [fmap option_fmap option_map Nat.add]. rewrite Z2Nat.id by lia. reflexivity. }
  pose proof (Hl s Hs) as H1. pose proof (Hl t Ht) as H2. rewrite <- Heq in H2.
  pose proof (NoDup_lookup l _ _ _ BlockType_String_NoDup H1 H2) as Hst. lia.
Qed.

Lemma BlockType_String_injective_witness : (64 : BlockType) = TypePicture.
Proof.
  apply (BlockType_String_injective 64 TypePicture);
    [lia | vm_compute; split; discriminate | vm_compute; reflexivity].
Defined.

(** ** Parse against Skip, and the locality of the header decoder *)

Section Compare.

Context (D : BodyDecoders).
Variable room : nat -> nat.

(** X16: on a block of type Reserved over a sequential reader, Parse and Skip
    consume the same bytes, but they do not report the same thing when the
    store ends before the declared Length: Skip fails with the reader's
    error, EOF included, while Parse fails only if that error is not EOF. *)
Theorem Parse_reserved_against_Skip (fuel : nat) (block : Block D) :
  BlockType_ (Header block) = TypeReserved ->
  seeking (r block) = NotSeeker ->
  0 <= Length (Header block) < 2 ^ 63 ->
  (Z.to_nat (Length (Header block)) < fuel)%nat ->
  exists e1 b1 e2 b2,
    Parse D room fuel block = Some (e1, b1)
    /\ Skip D fuel block = Some (e2, b2)
    /\ r b1 = r b2
    /\ ((Z.to_nat (Length (Header block)) <= avail (r block))%nat ->
        e1 = None /\ e2 = None)
    /\ ((avail (r block) < Z.to_nat (Length (Header block)))%nat ->
        e2 = Some (endErr (r block))
        /\ e1 = match endErr (r block) with EOF => None | e => Some e end).
Proof.
  intros Ht Hs HL Hf.
  rewrite Parse_reserved_eq, Skip_sequential by assumption.
  do 4 eexists. split; [reflexivity |]. split; [reflexivity |].
  cbn [r]. split; [reflexivity |].
  destruct (Nat.ltb_spec (avail (r block)) (Z.to_nat (Length (Header block))));
    split; intros; try lia; split; reflexivity.
Qed.

End Compare.

Lemma Parse_reserved_against_Skip_witness :
  exists e1 b1 e2 b2,
    Parse greedyDecoders noRoom 6
      (mkBlock (mkReader shortStore 4 EOF NotSeeker)
         (mkBlockHeader false TypeReserved 5) NoBody) = Some (e1, b1)
    /\ Skip greedyDecoders 6
         (mkBlock (mkReader shortStore 4 EOF NotSeeker)
            (mkBlockHeader false TypeReserved 5) NoBody) = Some (e2, b2)
    /\ r b1 = r b2
    /\ ((Z.to_nat 5 <= avail (mkReader shortStore 4 EOF NotSeeker))%nat ->
        e1 = None /\ e2 = None)
    /\ ((avail (mkReader shortStore 4 EOF NotSeeker) < Z.to_nat 5)%nat ->
        e2 = Some EOF /\ e1 = None).
Proof.
  apply (Parse_reserved_against_Skip greedyDecoders noRoom 6
           (mkBlock (mkReader shortStore 4 EOF NotSeeker)
              (mkBlockHeader false TypeReserved 5) NoBody));
    [reflexivity | reflexivity | cbn [Header Length]; lia | cbn [Header Length]; lia].
Defined.

(** X17: what ParseBlockHeader returns, what it logs and how far it moves the
    cursor depend only on the next four bytes of the reader (or on the fewer
    that are left) and on the error the reader reports at its end. *)
Theorem ParseBlockHeader_local (rd1 rd2 : Reader) :
  take 4 (drop (pos rd1) (data rd1)) = take 4 (drop (pos rd2) (data rd2)) ->
  endErr rd1 = endErr rd2 ->
  fst (fst (ParseBlockHeader rd1)) = fst (fst (ParseBlockHeader rd2))
  /\ snd (ParseBlockHeader rd1) = snd (ParseBlockHeader rd2)
  /\ (pos (snd (fst (ParseBlockHeader rd1))) - pos rd1
      = pos (snd (fst (ParseBlockHeader rd2))) - pos rd2)%nat.
Proof.
  intros Htake Hend.
  assert (Hlen : (avail rd1 `min` 4 = avail rd2 `min` 4)%nat).
  { apply (f_equal length) in Htake. rewrite !length_take, <- !avail_drop in Htake.
    lia. }
  destruct (Nat.lt_ge_cases (avail rd1) 4) as [Hlt | Hge].
  - assert (Hlt2 : (avail rd2 < 4)%nat) by lia.
    unfold ParseBlockHeader.
    destruct (ReadFields_starved rd1 Hlt) as [buf1 ->].
    destruct (ReadFields_starved rd2 Hlt2) as [buf2 ->].
    cbn [fst snd br_r set_pos pos]. rewrite Hend.
    split_and!; try reflexivity. lia.
  - assert (Hge2 : (4 <= avail rd2)%nat) by lia.
    destruct (four_bytes rd1 Hge) as (b0 & b1 & b2 & b3 & rest1 & Hd1).
    destruct (four_bytes rd2 Hge2) as (c0 & c1 & c2 & c3 & rest2 & Hd2).
    rewrite Hd1, Hd2 in Htake. cbn [take] in Htake. rewrite !take_0 in Htake.
    inversion Htake; subst c0 c1 c2 c3.
    unfold ParseBlockHeader.
    rewrite (ReadFields_full rd1 _ _ _ _ _ Hd1), (ReadFields_full rd2 _ _ _ _ _ Hd2).
    cbn [nth br_r].
    set (c := byte_val b0 mod 128).
    code_cases c; cbn [fst snd set_pos pos]; split_and!; try reflexivity; lia.
Qed.

Lemma ParseBlockHeader_local_witness :
  fst (fst (ParseBlockHeader (mkReader twoBlocks 7 EOF NotSeeker)))
  = fst (fst (ParseBlockHeader (mkReader (encodeHeader true 1 2) 0 EOF (Seeker None))))
  /\ snd (ParseBlockHeader (mkReader twoBlocks 7 EOF NotSeeker))
     = snd (ParseBlockHeader (mkReader (encodeHeader true 1 2) 0 EOF (Seeker None)))
  /\ (pos (snd (fst (ParseBlockHeader (mkReader twoBlocks 7 EOF NotSeeker))))
      - pos (mkReader twoBlocks 7 EOF NotSeeker)
      = pos (snd (fst (ParseBlockHeader
                         (mkReader (encodeHeader true 1 2) 0 EOF (Seeker None)))))
        - pos (mkReader (encodeHeader true 1 2) 0 EOF (Seeker None)))%nat.
Proof.
  apply (ParseBlockHeader_local (mkReader twoBlocks 7 EOF NotSeeker)
           (mkReader (encodeHeader true 1 2) 0 EOF (Seeker None)));
    vm_compute; reflexivity.
Defined.
